(** * operon-finder.py: a shallow embedding and its verified properties

    The script reads a FlaGs2 context table, groups consecutive rows by
    their first column ([blocks_by_query]), chains the genes of each block
    into operon clusters ([build_operons]) and writes one TSV line for every
    cluster that holds the query gene together with another gene ([main]).

    Conventions of the embedding:
    - a Python [str] is a [string]; its characters are code points below 256;
    - a Python [int] is a [Z] (unbounded); [int()] has CPython's default
      limit of 4300 digits on the literals it converts;
    - a row dict with the fixed keys of [parse_line] is the record
      [GeneRecord];
    - an exception is a value of [exn], carried by the [result] monad;
    - a generator is the list of values it yields together with the way it
      ends ([gen_end]: exhausted, or an exception raised by its body);
    - the output file is the list of strings passed to [write], in order. *)

From Stdlib Require Import ZArith Lia Ascii String List Permutation.
From stdpp Require Import base decidable option list sorting strings pretty gmap.

Local Open Scope string_scope.
Local Open Scope list_scope.
Local Open Scope Z_scope.

(** ** Exceptions and the error monad *)

Inductive exn : Type :=
| ValueError (literal : string).

Inductive result (A : Type) : Type :=
| Ok (a : A)
| Raise (e : exn).
Arguments Ok {A} a.
Arguments Raise {A} e.

#[global] Instance result_ret : MRet result := fun _ a => Ok a.
#[global] Instance result_bind : MBind result := fun _ _ k m =>
  match m with
  | Ok a => k a
  | Raise e => Raise e
  end.

(** ** The Python builtins the script calls *)

Module Py.

(** [str.isspace] on one character, for code points below 256. *)
Definition isspace (c : ascii) : bool :=
  let n := N_of_ascii c in
  ((9 <=? n) && (n <=? 13) || (28 <=? n) && (n <=? 32)
   || (n =? 133) || (n =? 160))%N.

Fixpoint lstrip (s : string) : string :=
  match s with
  | String c s' => if isspace c then lstrip s' else s
  | EmptyString => EmptyString
  end.

(** [s.strip()] *)
Definition strip (s : string) : string :=
  String.rev (lstrip (String.rev (lstrip s))).

(** The words of [s], with [w] the (reversed) word being read. *)
Fixpoint split_go (s : string) (w : string) : list string :=
  match s with
  | EmptyString =>
      match w with EmptyString => [] | _ => [String.rev w] end
  | String c s' =>
      if isspace c
      then match w with
           | EmptyString => split_go s' EmptyString
           | _ => String.rev w :: split_go s' EmptyString
           end
      else split_go s' (String c w)
  end.

(** [s.split()]: the maximal runs of non-whitespace characters. *)
Definition split (s : string) : list string := split_go s EmptyString.

(** [s.split(sep, 1)] for a one-character [sep]: the text before the first
    [sep] and, when there is one, the text after it. *)
Fixpoint split1 (sep : ascii) (s : string) : string * option string :=
  match s with
  | EmptyString => (EmptyString, None)
  | String c s' =>
      if Ascii.eqb c sep then (EmptyString, Some s')
      else let '(h, t) := split1 sep s' in (String c h, t)
  end.

Definition isdigit (c : ascii) : bool :=
  let n := N_of_ascii c in ((48 <=? n) && (n <=? 57))%N.

Definition digit_val (c : ascii) : Z := Z.of_N (N_of_ascii c) - 48.

(** Decimal digits with single underscores between them; [after_digit]
    says that the previous character was a digit. *)
Fixpoint int_digits (s : string) (acc : Z) (after_digit : bool) : option Z :=
  match s with
  | EmptyString => if after_digit then Some acc else None
  | String c s' =>
      if isdigit c then int_digits s' (10 * acc + digit_val c) true
      else if Ascii.eqb c "_"
           then if after_digit then int_digits s' acc false else None
           else None
  end.

(** [sys.get_int_max_str_digits()]: the script never changes it, so it
    has CPython's default. *)
Definition int_max_str_digits : N := 4300.

(** The number of decimal digits in [s]; a sign and underscores do not
    count. *)
Fixpoint count_digits (s : string) : N :=
  match s with
  | EmptyString => 0
  | String c s' => ((if isdigit c then 1 else 0) + count_digits s')%N
  end.

(** [int(s)] for a string without surrounding whitespace: an optional
    sign, then digits.  Anything else raises [ValueError], and so does a
    literal with more than [int_max_str_digits] digits. *)
Definition int (s : string) : result Z :=
  let body :=
    match s with
    | String "+" s' => int_digits s' 0 false
    | String "-" s' => Z.opp <$> int_digits s' 0 false
    | _ => int_digits s 0 false
    end in
  match body with
  | Some z =>
      if (int_max_str_digits <? count_digits s)%N then Raise (ValueError s)
      else Ok z
  | None => Raise (ValueError s)
  end.

(** [str(z)] for an [int] of at most [int_max_str_digits] digits, as every
    [int] is that [main] writes: they all come from [int]. *)
Definition str (z : Z) : string := pretty z.

(** [sep.join(l)] *)
Fixpoint join (sep : string) (l : list string) : string :=
  match l with
  | [] => ""
  | [s] => s
  | s :: l' => s +:+ sep +:+ join sep l'
  end.

Section Sorted.
Context {A K : Type} (key : A -> K) (lt : K -> K -> bool).

(** [x] goes in front of the first element whose key is not below its
    own: elements with an equal key stay behind the ones read before. *)
Fixpoint insert_sorted (x : A) (l : list A) : list A :=
  match l with
  | [] => [x]
  | y :: l' =>
      if lt (key y) (key x) then y :: insert_sorted x l'
      else x :: y :: l'
  end.

(** [sorted(l, key=key)]: a stable sort that compares keys with [<]. *)
Fixpoint sorted (l : list A) : list A :=
  match l with
  | [] => []
  | x :: l' => insert_sorted x (sorted l')
  end.
End Sorted.

(** [min(l)] and [max(l)] of a non-empty sequence of [int]s. *)
Definition min (x : Z) (l : list Z) : Z := fold_left Z.min l x.
Definition max (x : Z) (l : list Z) : Z := fold_left Z.max l x.

End Py.

(** ** The row dictionary *)

Record GeneRecord : Type := mkGene {
  q_full : string;
  q_id : string;
  q_species : string;
  strand : string;
  start : Z;
  stop : Z;
  prot_id : string;
  contig : string;
  assembly : string
}.

(** [parts[i]]; every use is below [length parts]. *)
Definition field (parts : list string) (i : nat) : string := nth i parts "".

Definition parse_line (line : string) : result (option GeneRecord) :=
  let parts := Py.split (Py.strip line) in
  if (length parts <? 12)%nat then Ok None
  else
    let '(head, tail) := Py.split1 "|" (field parts 0) in
    start0 ← Py.int (field parts 7);
    stop0 ← Py.int (field parts 8);
    let obj := {| q_full := field parts 0;
                  q_id := head;
                  q_species := match tail with Some t => t | None => "" end;
                  strand := field parts 3;
                  start := start0;
                  stop := stop0;
                  prot_id := field parts 9;
                  contig := field parts 10;
                  assembly := field parts 11 |} in
    if start obj >? stop obj
    then Ok (Some {| q_full := q_full obj; q_id := q_id obj;
                     q_species := q_species obj; strand := strand obj;
                     start := stop obj; stop := start obj;
                     prot_id := prot_id obj; contig := contig obj;
                     assembly := assembly obj |})
    else Ok (Some obj).

Definition tab : string := String (ascii_of_nat 9) "".
Definition nl : string := String (ascii_of_nat 10) "".

(** ** The block generator *)

Inductive gen_end : Type :=
| Exhausted
| Raised (e : exn).

Definition Block : Type := string * list GeneRecord.

(** [yield b], followed by the rest of the generator's run. *)
Definition yield {B : Type} (b : B) (run : list B * gen_end) : list B * gen_end :=
  (b :: run.1, run.2).

(** The [for] loop of [blocks_by_query] and the [yield] after it, started
    with the values of [current_key] and [current].  [current_key] is [None]
    only as long as [current] is empty. *)
Fixpoint blocks_loop (lines : list string)
    (current_key : option string) (current : list GeneRecord)
  : list Block * gen_end :=
  match lines with
  | [] =>
      match current, current_key with
      | _ :: _, Some k => yield (k, current) ([], Exhausted)
      | _, _ => ([], Exhausted)
      end
  | line :: lines' =>
      if String.eqb (Py.strip line) "" then blocks_loop lines' current_key current
      else
        match parse_line line with
        | Raise e => ([], Raised e)
        | Ok None => blocks_loop lines' current_key current
        | Ok (Some row) =>
            let key := q_full row in
            let current_key := default key current_key in
            if negb (String.eqb key current_key)
            then yield (current_key, current) (blocks_loop lines' (Some key) [row])
            else blocks_loop lines' (Some current_key) (current ++ [row])
        end
  end.

Definition blocks_by_query (lines : list string) : list Block * gen_end :=
  blocks_loop lines None [].

(** ** Chaining the rows of a block into operons *)

Definition sort_key (r : GeneRecord) : string * Z * Z :=
  (contig r, start r, stop r).

(** [<] on the key tuples: the first components that differ decide. *)
Definition key_lt (k1 k2 : string * Z * Z) : bool :=
  let '(c1, s1, e1) := k1 in
  let '(c2, s2, e2) := k2 in
  if negb (String.eqb c1 c2) then String.ltb c1 c2
  else if negb (s1 =? s2) then s1 <? s2
  else e1 <? e2.

(** One iteration of the loop over [rows_sorted], on the pair of [operons]
    and [current].  [last current] is [None] when [current] is empty
    ([if not current]) and [current[-1]] otherwise. *)
Definition chain_step (max_gap : Z) (require_same_strand : bool)
    (st : list (list GeneRecord) * list GeneRecord) (r : GeneRecord)
  : list (list GeneRecord) * list GeneRecord :=
  let '(operons, current) := st in
  match last current with
  | None => (operons, [r])
  | Some prev =>
      if negb (String.eqb (contig r) (contig prev))
      then (operons ++ [current], [r])
      else
        let intergenic := start r - stop prev in
        let same_strand_ok :=
          if require_same_strand then String.eqb (strand r) (strand prev)
          else true in
        if (intergenic <=? max_gap) && same_strand_ok
        then (operons, current ++ [r])
        else (operons ++ [current], [r])
  end.

Definition build_operons (rows : list GeneRecord)
    (max_gap : Z) (require_same_strand : bool) : list (list GeneRecord) :=
  let rows_sorted := Py.sorted sort_key key_lt rows in
  let '(operons, current) :=
    fold_left (chain_step max_gap require_same_strand) rows_sorted ([], []) in
  match current with
  | [] => operons
  | _ :: _ => operons ++ [current]
  end.

(** ** The selector and formatter of [main] *)

Definition header : string :=
  Py.join tab
    ["query_full"; "query_id"; "query_species"; "assembly"; "contig";
     "operon_start"; "operon_end"; "operon_size";
     "members_protein_ids"; "members_coords"; "query_in_operon"] +:+ nl.

(** The operons whose set of protein ids holds [query_id]. *)
Definition query_operons (query_id : string)
    (operons : list (list GeneRecord)) : list (list GeneRecord) :=
  filter (fun op =>
            let prot_ids : gset string := list_to_set (prot_id <$> op) in
            query_id ∈ prot_ids) operons.

Definition coords (r : GeneRecord) : string :=
  prot_id r +:+ ":" +:+ Py.str (start r) +:+ "-" +:+ Py.str (stop r).

(** The body of the loop over [query_operons]; [out] is what was written so
    far.  An operon that gets past the [continue] has a member, so the
    branch for an empty [members] is never taken. *)
Definition write_operon (q_full0 query_id species assembly0 : string)
    (out : list string) (op : list GeneRecord) : list string :=
  let members := op in
  let non_self := filter (fun r => prot_id r ≠ query_id) members in
  if (length non_self =? 0)%nat then out
  else
    match members with
    | [] => out
    | m0 :: ms =>
        let contig0 := contig m0 in
        let op_start := Py.min (start m0) (start <$> ms) in
        let op_end := Py.max (stop m0) (stop <$> ms) in
        let members_ids := Py.join "," (prot_id <$> members) in
        let members_coords := Py.join "," (coords <$> members) in
        out ++ [Py.join tab
                  [q_full0; query_id; species; assembly0; contig0;
                   Py.str op_start; Py.str op_end;
                   Py.str (Z.of_nat (length members));
                   members_ids; members_coords; "YES"] +:+ nl]
    end.

(** The body of the loop over the blocks. *)
Definition process_block (max_gap : Z) (require_same_strand : bool)
    (out : list string) (blk : Block) : list string :=
  let '(q_full0, rows) := blk in
  match rows with
  | [] => out
  | r0 :: _ =>
      let query_id := q_id r0 in
      let assembly0 := assembly r0 in
      let operons := build_operons rows max_gap require_same_strand in
      fold_left (write_operon q_full0 query_id (q_species r0) assembly0)
                (query_operons query_id operons) out
  end.

(** [main] on the lines of the input file: everything written to [out], and
    how the run ended. *)
Definition main (lines : list string) (max_gap : Z) (require_same_strand : bool)
  : list string * gen_end :=
  let '(blocks, e) := blocks_by_query lines in
  (fold_left (process_block max_gap require_same_strand) blocks [header], e).

(** ** Notions used to state the properties *)

(** The whitespace-delimited fields of a line, as [parse_line] sees them. *)
Definition fields (line : string) : list string := Py.split (Py.strip line).

(** [int] accepts [s]: a decimal literal of at most [Py.int_max_str_digits]
    digits. *)
Definition is_int (s : string) : bool :=
  match Py.int s with Ok _ => true | Raise _ => false end.

(** A line with twelve fields or more whose column 8 or 9 [int] rejects. *)
Definition bad_coordinates (line : string) : bool :=
  (12 <=? length (fields line))%nat
  && negb (is_int (field (fields line) 7) && is_int (field (fields line) 8)).

(** The rows parsed from the lines up to the first line on which
    [parse_line] raises, and whether there is such a line. *)
Fixpoint read (lines : list string) : list GeneRecord * gen_end :=
  match lines with
  | [] => ([], Exhausted)
  | line :: lines' =>
      match parse_line line with
      | Raise e => ([], Raised e)
      | Ok None => read lines'
      | Ok (Some r) => (r :: (read lines').1, (read lines').2)
      end
  end.

(** The successfully parsed rows, in input order. *)
Definition parsed (line : string) : option GeneRecord :=
  match parse_line line with
  | Ok (Some r) => Some r
  | _ => None
  end.

Definition parsed_rows (lines : list string) : list GeneRecord := omap parsed lines.

(** The maximal runs of consecutive rows with one [q_full], in order. *)
Fixpoint runs (rows : list GeneRecord) : list Block :=
  match rows with
  | [] => []
  | r :: rows' =>
      match runs rows' with
      | (k, g) :: bs =>
          if String.eqb (q_full r) k then (k, r :: g) :: bs
          else (q_full r, [r]) :: (k, g) :: bs
      | [] => [(q_full r, [r])]
      end
  end.

(** The blocks a run hands out when it ends with [e]: all the runs of the
    rows it read, or all but the last when it ends with an exception. *)
Definition handed_out (e : gen_end) (bs : list Block) : list Block :=
  match e with
  | Exhausted => bs
  | Raised _ => removelast bs
  end.

(** [R] holds of every two neighbours in [l]. *)
Definition adjacent {A : Type} (R : A -> A -> Prop) (l : list A) : Prop :=
  forall l1 a b l2, l = l1 ++ a :: b :: l2 -> R a b.

(** The chaining condition of [b] after [a]. *)
Definition link (max_gap : Z) (require_same_strand : bool)
    (a b : GeneRecord) : Prop :=
  start b - stop a <= max_gap
  /\ (require_same_strand = true -> strand a = strand b).

(** Between two clusters that meet on one contig the chaining condition
    fails. *)
Definition boundary (max_gap : Z) (require_same_strand : bool)
    (c1 c2 : list GeneRecord) : Prop :=
  forall a b, last c1 = Some a -> head c2 = Some b ->
    contig a = contig b -> ~ link max_gap require_same_strand a b.

(** Neighbours inside a cluster: one contig, and the chaining condition. *)
Definition chained (max_gap : Z) (require_same_strand : bool)
    (c : list GeneRecord) : Prop :=
  adjacent (fun a b => contig a = contig b /\ link max_gap require_same_strand a b) c.

(** What the loop of [build_operons] keeps true of [operons] and [current]. *)
Definition chain_inv (max_gap : Z) (require_same_strand : bool)
    (st : list (list GeneRecord) * list GeneRecord) : Prop :=
  Forall (fun c => c <> []) st.1
  /\ (st.2 = [] -> st.1 = [])
  /\ Forall (chained max_gap require_same_strand) (st.1 ++ [st.2])
  /\ adjacent (boundary max_gap require_same_strand) (st.1 ++ [st.2]).

(** The order of the sort keys, and of rows by their keys. *)
Definition key_le (k1 k2 : string * Z * Z) : Prop := key_lt k2 k1 = false.
Definition row_le (a b : GeneRecord) : Prop := key_le (sort_key a) (sort_key b).

(** [l'] has the rows of [l] with, for each key, its rows in the order of [l]. *)
Definition stable_of (l l' : list GeneRecord) : Prop :=
  forall k, filter (fun r => sort_key r = k) l' = filter (fun r => sort_key r = k) l.

(** A cluster that is reported for the query [query_id]. *)
Definition qualifying (query_id : string) (op : list GeneRecord) : Prop :=
  Exists (fun r => prot_id r = query_id) op
  /\ Exists (fun r => prot_id r <> query_id) op.

#[global] Instance qualifying_dec query_id op : Decision (qualifying query_id op).
Proof. unfold qualifying. apply _. Defined.

(** One line of the output table, field by field. *)
Record OutRecord : Type := mkOut {
  query_full : string;
  query_id : string;
  query_species : string;
  out_assembly : string;
  out_contig : string;
  operon_start : Z;
  operon_end : Z;
  operon_size : nat;
  members_protein_ids : string;
  members_coords : string;
  query_in_operon : string
}.

Definition record_line (o : OutRecord) : string :=
  Py.join tab
    [query_full o; query_id o; query_species o; out_assembly o; out_contig o;
     Py.str (operon_start o); Py.str (operon_end o);
     Py.str (Z.of_nat (operon_size o));
     members_protein_ids o; members_coords o; query_in_operon o] +:+ nl.

(** [m] is the least (with [Z.le]) or greatest (with [Z.ge]) element of [l]. *)
Definition extremum (R : Z -> Z -> Prop) (m : Z) (l : list Z) : Prop :=
  m ∈ l /\ forall x, x ∈ l -> R m x.

(** What the record of the cluster [op] in the block [(q, r0 :: _)] holds. *)
Definition describes (q : string) (r0 : GeneRecord)
    (op : list GeneRecord) (o : OutRecord) : Prop :=
  query_full o = q
  /\ query_id o = q_id r0
  /\ query_species o = q_species r0
  /\ out_assembly o = assembly r0
  /\ contig <$> head op = Some (out_contig o)
  /\ extremum Z.le (operon_start o) (start <$> op)
  /\ extremum Z.ge (operon_end o) (stop <$> op)
  /\ operon_size o = length op
  /\ members_protein_ids o = Py.join "," (prot_id <$> op)
  /\ members_coords o =
     Py.join ","
       ((fun r => prot_id r +:+ ":" +:+ Py.str (start r) +:+ "-" +:+ Py.str (stop r))
          <$> op)
  /\ query_in_operon o = "YES".

(** ** Notions used for the further properties *)

(** The pieces of [l], cut between two neighbours wherever [R] fails. *)
Fixpoint segments {A : Type} (R : A -> A -> bool) (l : list A) : list (list A) :=
  match l with
  | [] => []
  | x :: l' =>
      match segments R l' with
      | (y :: c) :: cs =>
          if R x y then (x :: y :: c) :: cs else [x] :: (y :: c) :: cs
      | _ => [[x]]
      end
  end.

(** The test of the loop of [build_operons] on a row [b] that comes after
    [a]: same contig, gap within [max_gap], and the strand check. *)
Definition linked (max_gap : Z) (require_same_strand : bool)
    (a b : GeneRecord) : bool :=
  String.eqb (contig b) (contig a)
  && (start b - stop a <=? max_gap)
  && (if require_same_strand then String.eqb (strand b) (strand a) else true).

(** How often the character [c] occurs in [s]. *)
Fixpoint count_char (c : ascii) (s : string) : nat :=
  match s with
  | EmptyString => 0
  | String x s' => (if Ascii.eqb x c then 1 else 0) + count_char c s'
  end.

(** [s] has no whitespace character; [s] has whitespace characters only. *)
Fixpoint no_space (s : string) : bool :=
  match s with
  | EmptyString => true
  | String x s' => negb (Py.isspace x) && no_space s'
  end.

Fixpoint all_space (s : string) : bool :=
  match s with
  | EmptyString => true
  | String x s' => Py.isspace x && all_space s'
  end.

(** A field as [split] returns it: not empty, no whitespace inside. *)
Definition token (t : string) : Prop := t <> "" /\ no_space t = true.

(** The fields of a row that [main] writes have no whitespace. *)
Definition row_no_space (r : GeneRecord) : Prop :=
  no_space (q_full r) = true /\ no_space (q_id r) = true
  /\ no_space (q_species r) = true /\ no_space (prot_id r) = true
  /\ no_space (contig r) = true /\ no_space (assembly r) = true.

(** A line of a table with eleven columns: ten tabs, and one newline, at
    the end. *)
Definition tsv_line (l : string) : Prop :=
  exists body, l = body +:+ nl
               /\ count_char (ascii_of_nat 9) body = 10%nat
               /\ count_char (ascii_of_nat 10) body = 0%nat.

(** ** Sample input *)

Definition ln (q s : string) (a b : Z) (p c : string) : string :=
  q +:+ " x x " +:+ s +:+ " x x x " +:+ Py.str a +:+ " " +:+ Py.str b
    +:+ " " +:+ p +:+ " " +:+ c +:+ " GCF_1" +:+ nl.

Definition line1 : string :=
  "Q1#1|E_coli x x + x x x 100 200 N1#1 C1 GCF_1" +:+ nl.
Definition line2 : string :=
  "Q1#1|E_coli x x + x x x 260 210 Q1#1 C1 GCF_1".
Definition bad_line : string :=
  "Q1#1|E_coli x x + x x x 3e2 350 N2#1 C1 GCF_1" +:+ nl.
Definition short_line : string := "Q1#1|E_coli x x + x x x 100 200" +:+ nl.
(** A decimal literal of 4301 digits, and a line with it in column 8. *)
Definition long_digits : string := string_of_list_ascii (repeat "1"%char 4301).
Definition long_line : string :=
  "Q1#1|E_coli x x + x x x " +:+ long_digits +:+ " 350 N2#1 C1 GCF_1" +:+ nl.
(** A line with no integer in column 8 nor in column 9. *)
Definition bad_line2 : string :=
  "Q1#1|E_coli x x + x x x 1.5 2.5 N2#1 C1 GCF_1" +:+ nl.
(** The first sample line with other ignored columns, tabs, a carriage
    return and a thirteenth field. *)
Definition line1' : string :=
  "  Q1#1|E_coli" +:+ tab +:+ "a b + c d e 100 200 N1#1 C1 GCF_1 extra"
    +:+ String (ascii_of_nat 13) nl.
Definition line6 : string :=
  "Q2#1|E_coli x x - x x x 5 50 Q2#1 C7 GCF_2" +:+ nl.

Definition row1 : GeneRecord :=
  mkGene "Q1#1|E_coli" "Q1#1" "E_coli" "+" 100 200 "N1#1" "C1" "GCF_1".
Definition row2 : GeneRecord :=
  mkGene "Q1#1|E_coli" "Q1#1" "E_coli" "+" 210 260 "Q1#1" "C1" "GCF_1".
Definition row3 : GeneRecord :=
  mkGene "Q1#1|E_coli" "Q1#1" "E_coli" "-" 400 500 "N3#1" "C1" "GCF_1".
(** The self row again, on a second contig, next to another gene. *)
Definition row4 : GeneRecord :=
  mkGene "Q1#1|E_coli" "Q1#1" "E_coli" "+" 10 90 "Q1#1" "C2" "GCF_1".
Definition row6 : GeneRecord :=
  mkGene "Q2#1|E_coli" "Q2#1" "E_coli" "-" 5 50 "Q2#1" "C7" "GCF_2".
(** A neighbour far from the self row. *)
Definition row7 : GeneRecord :=
  mkGene "Q1#1|E_coli" "Q1#1" "E_coli" "+" 100 140 "N1#1" "C1" "GCF_1".
Definition row8 : GeneRecord :=
  mkGene "Q1#1|E_coli" "Q1#1" "E_coli" "+" 300 350 "Q1#1" "C1" "GCF_1".
Definition row5 : GeneRecord :=
  mkGene "Q1#1|E_coli" "Q1#1" "E_coli" "+" 80 150 "N5#1" "C2" "GCF_1".

(** * Properties *)

(** ** The parser on sample lines *)

Example parse_line1 : parse_line line1 = Ok (Some row1).
Proof. reflexivity. Qed.

Example parse_line2 : parse_line line2 = Ok (Some row2).
Proof. reflexivity. Qed.

Example parse_short_line : parse_line short_line = Ok None.
Proof. reflexivity. Qed.

Example parse_bad_line : parse_line bad_line = Raise (ValueError "3e2").
Proof. reflexivity. Qed.

Example int_digit_cap :
  Py.int long_digits = Raise (ValueError long_digits)
  /\ bad_coordinates long_line = true
  /\ (blocks_by_query [line1; long_line]).2 = Raised (ValueError long_digits).
Proof. split_and!; by vm_compute. Qed.

Example parse_bad_line2 : parse_line bad_line2 = Raise (ValueError "1.5").
Proof. reflexivity. Qed.

Example int_examples :
  Py.int "1_000" = Ok 1000 /\ Py.int "-07" = Ok (-7) /\ Py.int "+5" = Ok 5
  /\ Py.int "1__0" = Raise (ValueError "1__0")
  /\ Py.int "x" = Raise (ValueError "x")
  /\ Py.int "1." = Raise (ValueError "1.")
  /\ Py.str (-12) = "-12" /\ Py.str 0 = "0".
Proof. repeat split; reflexivity. Qed.

(** ** The stable sort *)

Section SortedFacts.
Context {A K : Type} `{EqDecision K} (key : A -> K) (lt : K -> K -> bool).

Local Abbreviation le := (fun a b : A => lt (key b) (key a) = false).

Lemma insert_sorted_perm x l : Py.insert_sorted key lt x l ≡ₚ x :: l.
Proof.
  induction l as [|y l IH]; simpl; [done|].
  destruct (lt (key y) (key x)); [|done].
  rewrite IH. apply Permutation_swap.
Qed.

Lemma sorted_perm l : Py.sorted key lt l ≡ₚ l.
Proof.
  induction l as [|x l IH]; simpl; [done|].
  by rewrite insert_sorted_perm, IH.
Qed.

Hypothesis lt_irrefl : forall k, lt k k = false.

Lemma filter_insert_sorted k x l :
  filter (fun y => key y = k) (Py.insert_sorted key lt x l)
  = filter (fun y => key y = k) (x :: l).
Proof.
  induction l as [|y l IH]; simpl; [done|].
  destruct (lt (key y) (key x)) eqn:Hlt; [|done].
  rewrite !filter_cons in *.
  destruct (decide (key y = k)) as [Hy|Hy];
    destruct (decide (key x = k)) as [Hx|Hx]; try (by rewrite IH).
  rewrite Hy, Hx, lt_irrefl in Hlt. discriminate.
Qed.

Lemma sorted_stable k l :
  filter (fun y => key y = k) (Py.sorted key lt l)
  = filter (fun y => key y = k) l.
Proof.
  induction l as [|x l IH]; simpl; [done|].
  by rewrite filter_insert_sorted, !filter_cons, IH.
Qed.

Hypothesis lt_asym : forall a b, lt a b = true -> lt b a = false.
Hypothesis le_trans :
  forall a b c, lt b a = false -> lt c b = false -> lt c a = false.

Lemma insert_sorted_strongly x l :
  StronglySorted le l -> StronglySorted le (Py.insert_sorted key lt x l).
Proof.
  induction 1 as [|y l Hl IH Hy]; simpl.
  - repeat constructor.
  - destruct (lt (key y) (key x)) eqn:Hlt.
    + constructor; [done|].
      rewrite insert_sorted_perm. constructor; [|done]. by apply lt_asym.
    + constructor; [by constructor|].
      constructor; [done|].
      eapply Forall_impl; [exact Hy|]. simpl. intros z Hz. by eapply le_trans.
Qed.

Lemma sorted_strongly l : StronglySorted le (Py.sorted key lt l).
Proof.
  induction l as [|x l IH]; simpl; [constructor|].
  by apply insert_sorted_strongly.
Qed.

Hypothesis le_antisym : forall a b, lt a b = false -> lt b a = false -> a = b.

(** Two sorted lists that agree key by key are the same list. *)
Lemma stable_sorted_eq l1 l2 :
  StronglySorted le l1 -> StronglySorted le l2 ->
  (forall k, filter (fun y => key y = k) l1 = filter (fun y => key y = k) l2) ->
  l1 = l2.
Proof.
  intros H1. revert l2.
  induction H1 as [|x l1 Hl1 IH Hx]; intros l2 H2 Hf.
  - destruct l2 as [|y l2]; [done|].
    specialize (Hf (key y)). rewrite filter_cons in Hf.
    by destruct (decide (key y = key y)).
  - destruct H2 as [|y l2 Hl2 Hy].
    { specialize (Hf (key x)). rewrite filter_cons in Hf.
      by destruct (decide (key x = key x)). }
    assert (key x = key y) as Hk.
    { assert (x ∈ y :: l2) as Hxin.
      { eapply (list_elem_of_filter (fun z => key z = key x)).
        rewrite <- Hf, filter_cons. destruct (decide (key x = key x)); [|done].
        left. }
      assert (y ∈ x :: l1) as Hyin.
      { eapply (list_elem_of_filter (fun z => key z = key y)).
        rewrite Hf, filter_cons. destruct (decide (key y = key y)); [|done].
        left. }
      apply elem_of_cons in Hxin as [->|Hxin]; [done|].
      apply elem_of_cons in Hyin as [->|Hyin]; [done|].
      rewrite Forall_forall in Hx, Hy.
      apply le_antisym; [by apply Hy | by apply Hx]. }
    assert (x = y) as ->.
    { specialize (Hf (key x)). rewrite !filter_cons in Hf.
      destruct (decide (key x = key x)); [|done].
      destruct (decide (key y = key x)); [|congruence]. congruence. }
    f_equal. apply IH; [done|]. intros k.
    specialize (Hf k). rewrite !filter_cons in Hf.
    destruct (decide (key y = k)); congruence.
Qed.
End SortedFacts.

(** ** The order of the sort keys *)

Lemma string_compare_refl s : String.compare s s = Eq.
Proof.
  induction s as [|c s IH]; simpl; [done|].
  unfold Ascii.compare. by rewrite N.compare_refl.
Qed.

Lemma string_compare_lt_trans a b c :
  String.compare a b = Lt -> String.compare b c = Lt -> String.compare a c = Lt.
Proof.
  revert b c. induction a as [|x a IH]; intros [|y b] [|z c]; simpl; try done.
  unfold Ascii.compare.
  destruct (N.compare_spec (N_of_ascii x) (N_of_ascii y)) as [Hxy|Hxy|Hxy],
           (N.compare_spec (N_of_ascii y) (N_of_ascii z)) as [Hyz|Hyz|Hyz],
           (N.compare_spec (N_of_ascii x) (N_of_ascii z)) as [Hxz|Hxz|Hxz];
    try done; try lia; eauto.
Qed.

Lemma string_ltb_irrefl s : String.ltb s s = false.
Proof. unfold String.ltb. by rewrite string_compare_refl. Qed.

Lemma string_ltb_trans a b c :
  String.ltb a b = true -> String.ltb b c = true -> String.ltb a c = true.
Proof.
  unfold String.ltb. intros Hab Hbc.
  rewrite (string_compare_lt_trans a b c); [done| |].
  - by destruct (String.compare a b).
  - by destruct (String.compare b c).
Qed.

Lemma string_ltb_total a b :
  String.ltb a b = true \/ a = b \/ String.ltb b a = true.
Proof.
  unfold String.ltb. rewrite (String.compare_antisym b a).
  destruct (String.compare a b) eqn:Hc; simpl; auto.
  right; left. by apply String.compare_eq_iff.
Qed.

(** [key_lt] in terms of the orders of its components. *)
Lemma key_lt_spec c1 s1 e1 c2 s2 e2 :
  key_lt (c1, s1, e1) (c2, s2, e2) = true <->
  String.ltb c1 c2 = true \/ (c1 = c2 /\ (s1 < s2 \/ (s1 = s2 /\ e1 < e2))).
Proof.
  unfold key_lt.
  destruct (String.eqb_spec c1 c2) as [->|Hc]; simpl.
  - rewrite string_ltb_irrefl.
    destruct (Z.eqb_spec s1 s2) as [->|Hs]; simpl;
      rewrite Z.ltb_lt; intuition (try lia; try done).
  - intuition done.
Qed.

Lemma key_lt_irrefl k : key_lt k k = false.
Proof.
  destruct k as [[c s] e]. apply not_true_is_false. rewrite key_lt_spec.
  rewrite string_ltb_irrefl. intuition (try lia; try done).
Qed.

Lemma key_lt_trans a b c :
  key_lt a b = true -> key_lt b c = true -> key_lt a c = true.
Proof.
  destruct a as [[c1 s1] e1], b as [[c2 s2] e2], c as [[c3 s3] e3].
  rewrite !key_lt_spec.
  intros [H1|[-> H1]] [H2|[-> H2]]; eauto using string_ltb_trans.
  right. split; [done|lia].
Qed.

Lemma key_lt_total a b : key_lt a b = true \/ a = b \/ key_lt b a = true.
Proof.
  destruct a as [[c1 s1] e1], b as [[c2 s2] e2].
  rewrite !key_lt_spec.
  destruct (string_ltb_total c1 c2) as [H|[->|H]]; auto.
  destruct (Z.lt_trichotomy s1 s2) as [H|[->|H]]; auto 6.
  destruct (Z.lt_trichotomy e1 e2) as [H|[->|H]]; auto 8.
Qed.

Lemma key_lt_asym a b : key_lt a b = true -> key_lt b a = false.
Proof.
  intros Hab. apply not_true_is_false. intros Hba.
  pose proof (key_lt_trans _ _ _ Hab Hba) as H.
  by rewrite key_lt_irrefl in H.
Qed.

Lemma key_le_trans a b c :
  key_lt b a = false -> key_lt c b = false -> key_lt c a = false.
Proof.
  intros Hba Hcb. apply not_true_is_false. intros Hca.
  destruct (key_lt_total a b) as [H|[->|H]]; [|congruence..].
  pose proof (key_lt_trans _ _ _ Hca H). congruence.
Qed.

Lemma key_le_antisym a b : key_lt a b = false -> key_lt b a = false -> a = b.
Proof. intros Hab Hba. destruct (key_lt_total a b) as [H|[->|H]]; congruence. Qed.

(** What [rows_sorted] is in [build_operons]. *)
Lemma rows_sorted_perm rows : Py.sorted sort_key key_lt rows ≡ₚ rows.
Proof. apply sorted_perm. Qed.

Lemma rows_sorted_stable rows : stable_of rows (Py.sorted sort_key key_lt rows).
Proof. intros k. apply sorted_stable, key_lt_irrefl. Qed.

Lemma rows_sorted_strongly rows :
  StronglySorted row_le (Py.sorted sort_key key_lt rows).
Proof.
  apply (sorted_strongly sort_key key_lt key_lt_asym key_le_trans).
Qed.

Lemma rows_sorted_unique rows l :
  StronglySorted row_le l -> stable_of rows l ->
  l = Py.sorted sort_key key_lt rows.
Proof.
  intros Hl Hst.
  apply (stable_sorted_eq sort_key key_lt key_le_antisym);
    [done|apply rows_sorted_strongly|].
  intros k. by rewrite Hst, rows_sorted_stable.
Qed.

(** ** The parser *)

Lemma int_raises s e : Py.int s = Raise e -> e = ValueError s.
Proof.
  unfold Py.int. intros H.
  destruct (match s with
            | String "+" s' => Py.int_digits s' 0 false
            | String "-" s' => Z.opp <$> Py.int_digits s' 0 false
            | _ => Py.int_digits s 0 false
            end); [|congruence].
  destruct (_ <? _)%N; congruence.
Qed.

Lemma parse_line_unfold line :
  parse_line line =
  if (length (fields line) <? 12)%nat then Ok None
  else
    match Py.int (field (fields line) 7), Py.int (field (fields line) 8) with
    | Raise e, _ => Raise e
    | Ok _, Raise e => Raise e
    | Ok a, Ok b =>
        Ok (Some {| q_full := field (fields line) 0;
                    q_id := (Py.split1 "|" (field (fields line) 0)).1;
                    q_species := default "" (Py.split1 "|" (field (fields line) 0)).2;
                    strand := field (fields line) 3;
                    start := Z.min a b;
                    stop := Z.max a b;
                    prot_id := field (fields line) 9;
                    contig := field (fields line) 10;
                    assembly := field (fields line) 11 |})
    end.
Proof.
  unfold parse_line, fields.
  destruct (_ <? 12)%nat; [done|].
  destruct (Py.split1 _ _) as [hd tl]; simpl.
  destruct (Py.int (field _ 7)) as [a|e]; simpl; [|done].
  destruct (Py.int (field _ 8)) as [b|e]; simpl; [|done].
  destruct (Z.gtb_spec a b).
  - rewrite Z.min_r, Z.max_l by lia. by destruct tl.
  - rewrite Z.min_l, Z.max_r by lia. by destruct tl.
Qed.

Lemma parse_line_blank line : Py.strip line = "" -> parse_line line = Ok None.
Proof. intros H. rewrite parse_line_unfold. unfold fields. by rewrite H. Qed.

Lemma parse_line_short line :
  (length (fields line) < 12)%nat -> parse_line line = Ok None.
Proof.
  intros H. rewrite parse_line_unfold.
  by destruct (Nat.ltb_spec (length (fields line)) 12); [|lia].
Qed.

Lemma parse_line_raises line :
  bad_coordinates line = true <-> exists e, parse_line line = Raise e.
Proof.
  rewrite parse_line_unfold. unfold bad_coordinates, is_int.
  destruct (Nat.ltb_spec (length (fields line)) 12) as [Hlt|Hge].
  - destruct (Nat.leb_spec 12 (length (fields line))); [lia|].
    simpl. split; [done|]. by intros [e ?].
  - destruct (Nat.leb_spec 12 (length (fields line))); [|lia]. simpl.
    destruct (Py.int (field (fields line) 7)), (Py.int (field (fields line) 8)); simpl;
      split; eauto; try done; by intros [e ?].
Qed.

Lemma parse_line_accepts line :
  bad_coordinates line = false -> exists o, parse_line line = Ok o.
Proof.
  intros Hb. destruct (parse_line line) as [o|e] eqn:Hp; [eauto|].
  assert (bad_coordinates line = true) by (apply parse_line_raises; eauto).
  congruence.
Qed.

Lemma parse_line_start_stop line r :
  parse_line line = Ok (Some r) -> start r <= stop r.
Proof.
  rewrite parse_line_unfold.
  destruct (_ <? 12)%nat; [done|].
  destruct (Py.int (field (fields line) 7)), (Py.int (field (fields line) 8)); try done.
  intros [= <-]. simpl. lia.
Qed.

(** ** The block generator *)

Lemma read_ok lines :
  Forall (fun line => bad_coordinates line = false) lines ->
  read lines = (parsed_rows lines, Exhausted).
Proof.
  unfold parsed_rows.
  induction 1 as [|line lines Hb _ IH]; simpl; [done|]. unfold parsed.
  destruct (parse_line_accepts _ Hb) as [[r|] ->]; by rewrite IH.
Qed.

Lemma read_rows_parsed lines r :
  r ∈ (read lines).1 -> exists line, line ∈ lines /\ parse_line line = Ok (Some r).
Proof.
  induction lines as [|line lines IH]; simpl; [by intros ?%elem_of_nil|].
  destruct (parse_line line) as [[r'|]|e] eqn:Hp; simpl.
  - intros [->|Hr]%elem_of_cons.
    + exists line. split; [left|done].
    + destruct (IH Hr) as (l & ? & ?). exists l. split; [by right|done].
  - intros Hr. destruct (IH Hr) as (l & ? & ?). exists l. split; [by right|done].
  - by intros ?%elem_of_nil.
Qed.

Lemma runs_unfold r rows :
  runs (r :: rows) =
  match runs rows with
  | (k, g) :: bs =>
      if String.eqb (q_full r) k then (k, r :: g) :: bs
      else (q_full r, [r]) :: (k, g) :: bs
  | [] => [(q_full r, [r])]
  end.
Proof. done. Qed.

Lemma runs_cons r rows :
  exists g bs, runs (r :: rows) = (q_full r, r :: g) :: bs.
Proof.
  rewrite runs_unfold. destruct (runs rows) as [|[k g] bs]; [by eauto|].
  destruct (String.eqb_spec (q_full r) k) as [->|]; eauto.
Qed.

Lemma runs_uniform_app k cur rest :
  cur <> [] -> Forall (fun r => q_full r = k) cur ->
  (forall r, head rest = Some r -> q_full r <> k) ->
  runs (cur ++ rest) = (k, cur) :: runs rest.
Proof.
  intros Hne Hk Hrest. induction Hk as [|r0 cur Hr0 Hk IH]; [done|].
  destruct cur as [|r1 cur].
  - simpl app. rewrite runs_unfold. destruct rest as [|r rest]; [by subst|].
    destruct (runs_cons r rest) as (g & bs & ->).
    destruct (String.eqb_spec (q_full r0) (q_full r)) as [Heq|]; [|by subst].
    destruct (Hrest r); [done|congruence].
  - change ((r0 :: r1 :: cur) ++ rest) with (r0 :: ((r1 :: cur) ++ rest)).
    rewrite runs_unfold, IH by done. rewrite Hr0.
    by rewrite String.eqb_refl.
Qed.

Lemma runs_one k cur :
  cur <> [] -> Forall (fun r => q_full r = k) cur -> runs cur = [(k, cur)].
Proof.
  intros Hne Hk. rewrite <- (app_nil_r cur) at 1.
  by apply (runs_uniform_app k cur []).
Qed.

Lemma concat_runs rows : concat ((fun b : Block => b.2) <$> runs rows) = rows.
Proof.
  induction rows as [|r rows IH]; [done|].
  rewrite runs_unfold. destruct (runs rows) as [|[k g] bs]; simpl in *.
  - by rewrite <- IH.
  - destruct (String.eqb (q_full r) k); simpl; by rewrite <- IH.
Qed.

Lemma runs_uniform rows :
  Forall (fun b : Block => b.2 <> [] /\ Forall (fun r => q_full r = b.1) b.2)
         (runs rows).
Proof.
  induction rows as [|r rows IH]; [constructor|].
  rewrite runs_unfold. destruct (runs rows) as [|[k g] bs].
  - repeat constructor; done.
  - apply Forall_cons in IH as [[Hg Hk] Hbs]. simpl in *.
    destruct (String.eqb_spec (q_full r) k) as [Heq|Hne].
    + constructor; [|done]. simpl. split; [done|]. by constructor.
    + constructor; [by repeat constructor|]. by constructor.
Qed.

Lemma adjacent_nil {A} (R : A -> A -> Prop) : adjacent R [].
Proof. intros [|x l1] a b l2 H; discriminate. Qed.

Lemma adjacent_singleton {A} (R : A -> A -> Prop) x : adjacent R [x].
Proof. intros [|y [|z l1]] a b l2 H; discriminate. Qed.

Lemma adjacent_cons {A} (R : A -> A -> Prop) x l :
  adjacent R (x :: l) <-> (forall y, head l = Some y -> R x y) /\ adjacent R l.
Proof.
  split.
  - intros H. split.
    + intros y Hy. destruct l as [|z l]; simplify_eq/=. by apply (H [] _ _ l).
    + intros l1 a b l2 ->. by apply (H (x :: l1) a b l2).
  - intros [Hhd Htl] [|z l1] a b l2 Heq; simplify_eq/=.
    + by apply Hhd.
    + by apply (Htl l1 a b l2).
Qed.

Lemma runs_adjacent rows :
  adjacent (fun b1 b2 : Block => b1.1 <> b2.1) (runs rows).
Proof.
  induction rows as [|r rows IH]; [apply adjacent_nil|].
  rewrite runs_unfold. destruct (runs rows) as [|[k g] bs].
  - apply adjacent_singleton.
  - apply adjacent_cons in IH as [Hhd Htl].
    destruct (String.eqb_spec (q_full r) k) as [Heq|Hne].
    + apply adjacent_cons. split; [done|done].
    + apply adjacent_cons. split.
      * intros y [= <-]. done.
      * apply adjacent_cons. split; done.
Qed.

(** The runs are the only way to cut the rows into non-empty blocks of one
    key each with a change of key between neighbours. *)
Lemma runs_unique (bs : list Block) :
  Forall (fun b : Block => b.2 <> [] /\ Forall (fun r => q_full r = b.1) b.2) bs ->
  adjacent (fun b1 b2 : Block => b1.1 <> b2.1) bs ->
  bs = runs (concat ((fun b : Block => b.2) <$> bs)).
Proof.
  induction 1 as [|[k g] bs [Hne Hk] Hbs IH]; intros Hadj; [done|].
  apply adjacent_cons in Hadj as [Hhd Htl]. simpl in *.
  rewrite (runs_uniform_app k g); [f_equal; by apply IH|done|done|].
  intros r Hr. destruct bs as [|[k' g'] bs']; [done|].
  apply Forall_cons in Hbs as [[Hne' Hk'] _]. simpl in *.
  destruct g' as [|r' g']; [done|]. simpl in Hr. injection Hr as <-.
  apply Forall_cons in Hk' as [Hr' _].
  specialize (Hhd (k', r' :: g') eq_refl). simpl in Hhd. congruence.
Qed.

Lemma handed_out_cons e b bs :
  bs <> [] -> handed_out e (b :: bs) = b :: handed_out e bs.
Proof. intros Hne. destruct e, bs; done. Qed.

Lemma blocks_loop_spec lines k cur :
  cur <> [] -> Forall (fun r => q_full r = k) cur ->
  blocks_loop lines (Some k) cur
  = (handed_out (read lines).2 (runs (cur ++ (read lines).1)), (read lines).2).
Proof.
  revert k cur. induction lines as [|line lines IH]; intros k cur Hne Hk.
  - simpl. rewrite app_nil_r, (runs_one k) by done. by destruct cur.
  - simpl.
    destruct (String.eqb_spec (Py.strip line) "") as [Hblank|_].
    { rewrite (parse_line_blank _ Hblank). by apply IH. }
    destruct (parse_line line) as [[row|]|e]; simpl.
    + destruct (String.eqb_spec (q_full row) k) as [Heq|Hneq]; simpl.
      * rewrite IH; [|by destruct cur|by apply Forall_app; auto].
        by rewrite <- app_assoc.
      * rewrite (IH (q_full row) [row]) by (by repeat constructor).
        change ([row] ++ (read lines).1) with (row :: (read lines).1).
        rewrite (runs_uniform_app k cur) by (done || by intros ? [= <-]).
        destruct (runs_cons row (read lines).1) as (g & bs & ->).
        unfold yield. cbn [fst snd]. by rewrite (handed_out_cons _ (k, cur)).
    + by apply IH.
    + by rewrite app_nil_r, (runs_one k).
Qed.

(** A line on which [parse_line] returns [None] leaves no trace. *)
Lemma blocks_loop_skip before line after current_key current :
  parse_line line = Ok None ->
  blocks_loop (before ++ line :: after) current_key current
  = blocks_loop (before ++ after) current_key current.
Proof.
  intros Hline. revert current_key current.
  induction before as [|l before IH]; intros current_key current; simpl.
  - rewrite Hline. by destruct (String.eqb _ _).
  - destruct (String.eqb _ _); [done|].
    destruct (parse_line l) as [[row|]|e]; [|done..].
    by destruct (negb _); rewrite IH.
Qed.

Lemma short_line_skipped before line after :
  (length (fields line) < 12)%nat ->
  blocks_by_query (before ++ line :: after) = blocks_by_query (before ++ after).
Proof. intros H. by apply blocks_loop_skip, parse_line_short. Qed.

(** The run of the generator, in full: it raises at the first line with bad
    coordinates, and until then hands out the completed runs of the rows. *)
Lemma blocks_by_query_read lines :
  blocks_by_query lines
  = (handed_out (read lines).2 (runs (read lines).1), (read lines).2).
Proof.
  unfold blocks_by_query. induction lines as [|line lines IH]; [done|].
  simpl.
  destruct (String.eqb_spec (Py.strip line) "") as [Hblank|_].
  { by rewrite (parse_line_blank _ Hblank). }
  destruct (parse_line line) as [[row|]|e]; simpl; [|done..].
  rewrite String.eqb_refl. simpl.
  by rewrite blocks_loop_spec by (by repeat constructor).
Qed.

(** ** Chaining *)

Lemma adjacent_snoc {A} (R : A -> A -> Prop) l x :
  adjacent R (l ++ [x]) <-> adjacent R l /\ (forall y, last l = Some y -> R y x).
Proof.
  split.
  - intros H. split.
    + intros l1 a b l2 ->. apply (H l1 a b (l2 ++ [x])).
      by rewrite <- !app_assoc.
    + intros y [l' ->]%last_Some. apply (H l' y x []). by rewrite <- app_assoc.
  - intros [Hl Hx] l1 a b l2 Heq.
    destruct l2 as [|z l2 _] using rev_ind.
    + change (l1 ++ [a; b]) with (l1 ++ [a] ++ [b]) in Heq.
      rewrite app_assoc in Heq. apply app_inj_tail in Heq as [-> ->].
      apply Hx. by rewrite last_snoc.
    + change (l1 ++ a :: b :: l2 ++ [z]) with (l1 ++ (a :: b :: l2) ++ [z]) in Heq.
      rewrite app_assoc in Heq. apply app_inj_tail in Heq as [-> ->].
      by apply (Hl l1 a b l2).
Qed.

Lemma adjacent_eq_all {A B} (f : A -> B) c :
  adjacent (fun a b => f a = f b) c ->
  forall x y, x ∈ c -> y ∈ c -> f x = f y.
Proof.
  intros Hc.
  assert (forall x0 c', adjacent (fun a b => f a = f b) (x0 :: c') ->
                        forall y, y ∈ c' -> f x0 = f y) as Hhd.
  { intros x0 c'. revert x0. induction c' as [|z c' IH]; intros x0 H y Hy.
    - by apply elem_of_nil in Hy.
    - apply adjacent_cons in H as [Hz H].
      apply elem_of_cons in Hy as [->|Hy]; [by apply Hz|].
      rewrite (Hz z) by done. by apply IH. }
  destruct c as [|x0 c]; [by intros ? ? ?%elem_of_nil|].
  intros x y [->|Hx]%elem_of_cons [->|Hy]%elem_of_cons; try done.
  - by apply (Hhd _ _ Hc).
  - symmetry. by apply (Hhd _ _ Hc).
  - rewrite <- (Hhd x0 c Hc x), <- (Hhd x0 c Hc y); done.
Qed.

Lemma adjacent_impl {A} (R R' : A -> A -> Prop) l :
  (forall a b, R a b -> R' a b) -> adjacent R l -> adjacent R' l.
Proof. intros HR Hl l1 a b l2 Heq. eapply HR, Hl, Heq. Qed.

Lemma link_decide (max_gap : Z) (rss : bool) (prev r : GeneRecord) :
  (start r - stop prev <=? max_gap)
  && (if rss then String.eqb (strand r) (strand prev) else true) = true
  <-> link max_gap rss prev r.
Proof.
  unfold link. rewrite andb_true_iff, Z.leb_le.
  destruct rss; [rewrite String.eqb_eq|]; intuition (done || congruence).
Qed.

Lemma chain_step_inv max_gap rss st r :
  chain_inv max_gap rss st -> chain_inv max_gap rss (chain_step max_gap rss st r).
Proof.
  destruct st as [operons current]. intros (Hne & Hnil & Hch & Hbd).
  simpl in *. unfold chain_step.
  destruct (last current) as [prev|] eqn:Hlast.
  - assert (current <> []) as Hcur by (by intros ->).
    apply Forall_app in Hch as [Hops Hcurch]. rewrite Forall_singleton in Hcurch.
    assert (boundary max_gap rss current [r] ->
            chain_inv max_gap rss (operons ++ [current], [r])) as Hnew.
    { intros Hb. unfold chain_inv. simpl. split_and!.
      - apply Forall_app. split; [done|]. by apply Forall_singleton.
      - done.
      - rewrite !Forall_app, !Forall_singleton. split_and!; try done.
        apply adjacent_singleton.
      - apply adjacent_snoc. split; [done|].
        intros c Hc. rewrite last_snoc in Hc. by simplify_eq. }
    destruct (String.eqb_spec (contig r) (contig prev)) as [Hc|Hc]; simpl.
    + destruct (_ && _) eqn:Hlink.
      * apply link_decide in Hlink. unfold chain_inv. simpl. split_and!.
        -- done.
        -- by intros [_ ?]%app_eq_nil.
        -- rewrite Forall_app, Forall_singleton. split; [done|].
           apply adjacent_snoc. split; [done|].
           intros y Hy. by simplify_eq.
        -- apply adjacent_snoc in Hbd as [Hops' Hlastop].
           apply adjacent_snoc. split; [done|].
           intros c Hc' a b Ha Hb. apply (Hlastop c Hc' a b Ha).
           by destruct current.
      * apply Hnew. intros a b Ha [= <-] _ Hl. simplify_eq.
        apply link_decide in Hl. congruence.
    + apply Hnew. intros a b Ha [= <-] Hcab. simplify_eq.
  - apply last_None in Hlast as ->. rewrite (Hnil eq_refl).
    unfold chain_inv. simpl. split_and!; try done.
    + rewrite Forall_singleton. apply adjacent_singleton.
    + apply adjacent_singleton.
Qed.

Lemma chain_step_concat max_gap rss st r :
  concat (chain_step max_gap rss st r).1 ++ (chain_step max_gap rss st r).2
  = concat st.1 ++ st.2 ++ [r].
Proof.
  destruct st as [operons current]. unfold chain_step. simpl.
  destruct (last current) as [prev|] eqn:Hlast.
  - destruct (negb _); simpl.
    + by rewrite concat_app, <- app_assoc; simpl; rewrite app_nil_r.
    + destruct (_ && _); simpl; [done|].
      by rewrite concat_app, <- app_assoc; simpl; rewrite app_nil_r.
  - by apply last_None in Hlast as ->.
Qed.

Lemma fold_chain_inv max_gap rss rows st :
  chain_inv max_gap rss st ->
  chain_inv max_gap rss (fold_left (chain_step max_gap rss) rows st).
Proof.
  revert st. induction rows as [|r rows IH]; intros st Hst; [done|].
  simpl. by apply IH, chain_step_inv.
Qed.

Lemma fold_chain_concat max_gap rss rows st :
  concat (fold_left (chain_step max_gap rss) rows st).1
    ++ (fold_left (chain_step max_gap rss) rows st).2
  = concat st.1 ++ st.2 ++ rows.
Proof.
  revert st. induction rows as [|r rows IH]; intros st; simpl.
  - by rewrite app_nil_r.
  - rewrite IH, app_assoc, chain_step_concat. by rewrite <- !app_assoc.
Qed.

(** The clusters of a block: non-empty, chained inside, separated at every
    boundary, and together the sorted rows. *)
Lemma build_operons_facts rows max_gap rss :
  let ops := build_operons rows max_gap rss in
  Forall (fun c => c <> []) ops
  /\ Forall (chained max_gap rss) ops
  /\ adjacent (boundary max_gap rss) ops
  /\ concat ops = Py.sorted sort_key key_lt rows.
Proof.
  unfold build_operons.
  assert (chain_inv max_gap rss ([], [])) as Hinit.
  { unfold chain_inv. simpl. split_and!; try done.
    - rewrite Forall_singleton. apply adjacent_nil.
    - apply adjacent_singleton. }
  pose proof (fold_chain_inv max_gap rss (Py.sorted sort_key key_lt rows) _ Hinit)
    as Hinv.
  pose proof (fold_chain_concat max_gap rss (Py.sorted sort_key key_lt rows) ([], []))
    as Hcat.
  destruct (fold_left _ _ _) as [operons current].
  destruct Hinv as (Hne & Hnil & Hch & Hbd).
  destruct current as [|r current]; simpl in *.
  - rewrite (Hnil eq_refl) in *. simpl in *. split_and!; try done.
    apply adjacent_nil.
  - split_and!; try done.
    + apply Forall_app. split; [done|]. by apply Forall_singleton.
    + by rewrite concat_app; simpl; rewrite app_nil_r.
Qed.

(** ** The selector and formatter *)

Lemma py_min_extremum x l : extremum Z.le (Py.min x l) (x :: l).
Proof.
  unfold Py.min. revert x. induction l as [|y l IH]; intros x; simpl.
  - split; [left|]. intros z ->%list_elem_of_singleton. lia.
  - destruct (IH (Z.min x y)) as [Hin Hle]. split.
    + apply elem_of_cons in Hin as [->|Hin]; [|by do 2 right].
      destruct (Z.min_spec x y) as [[_ ->]|[_ ->]]; [left|right; left].
    + pose proof (Hle (Z.min x y) ltac:(left)) as Hm.
      intros z [->|[->|Hz]%elem_of_cons]%elem_of_cons; [lia..|].
      apply Hle. by right.
Qed.

Lemma py_max_extremum x l : extremum Z.ge (Py.max x l) (x :: l).
Proof.
  unfold Py.max. revert x. induction l as [|y l IH]; intros x; simpl.
  - split; [left|]. intros z ->%list_elem_of_singleton. lia.
  - destruct (IH (Z.max x y)) as [Hin Hge]. split.
    + apply elem_of_cons in Hin as [->|Hin]; [|by do 2 right].
      destruct (Z.max_spec x y) as [[_ ->]|[_ ->]]; [right; left|left].
    + pose proof (Hge (Z.max x y) ltac:(left)) as Hm.
      intros z [->|[->|Hz]%elem_of_cons]%elem_of_cons; [lia..|].
      apply Hge. by right.
Qed.

Lemma non_self_nil qid (op : list GeneRecord) :
  filter (fun r => prot_id r <> qid) op = [] <-> Forall (fun r => prot_id r = qid) op.
Proof.
  induction op as [|r op IH]; [by split; [constructor|]|].
  rewrite filter_cons, Forall_cons.
  destruct (decide (prot_id r <> qid)) as [Hne|Heq].
  - split; [done|]. by intros [? _].
  - apply dec_stable in Heq. rewrite IH. by intuition.
Qed.

Lemma query_operons_filter qid ops :
  query_operons qid ops = filter (Exists (fun r => prot_id r = qid)) ops.
Proof.
  unfold query_operons. apply list_filter_iff. intros op. simpl.
  rewrite elem_of_list_to_set, list_elem_of_fmap, Exists_exists.
  split; intros (r & ? & ?); exists r; done.
Qed.

Lemma write_operon_self_only q qid sp asm out op :
  Forall (fun r => prot_id r = qid) op -> write_operon q qid sp asm out op = out.
Proof. intros H%non_self_nil. unfold write_operon. by rewrite H. Qed.

Lemma write_operon_record q r0 out op :
  Exists (fun r => prot_id r <> q_id r0) op ->
  exists o, write_operon q (q_id r0) (q_species r0) (assembly r0) out op
            = out ++ [record_line o]
            /\ describes q r0 op o.
Proof.
  intros Hex. unfold write_operon.
  destruct (filter _ op) as [|x non_self] eqn:Hf.
  { apply non_self_nil in Hf. apply Exists_exists in Hex as (r & Hr & Hne).
    rewrite Forall_forall in Hf. destruct Hne. by apply Hf. }
  simpl. destruct op as [|m0 ms]; [by apply Exists_nil in Hex|].
  eexists (mkOut q (q_id r0) (q_species r0) (assembly r0) (contig m0)
             (Py.min (start m0) (start <$> ms)) (Py.max (stop m0) (stop <$> ms))
             (length (m0 :: ms)) _ _ "YES").
  split; [reflexivity|].
  unfold describes. simpl. split_and!; try done.
  - apply py_min_extremum.
  - apply py_max_extremum.
Qed.

(** The lines of a block: one per qualifying cluster, in cluster order. *)
Lemma fold_write_operon_records q r0 ops out :
  exists recs,
    fold_left (write_operon q (q_id r0) (q_species r0) (assembly r0))
              (query_operons (q_id r0) ops) out
    = out ++ (record_line <$> recs)
    /\ Forall2 (describes q r0) (filter (qualifying (q_id r0)) ops) recs.
Proof.
  rewrite query_operons_filter. revert out.
  induction ops as [|op ops IH]; intros out.
  { exists []. split; [by rewrite app_nil_r|constructor]. }
  rewrite !filter_cons. unfold qualifying at 1.
  destruct (decide (Exists (fun r => prot_id r = q_id r0) op)) as [Hq|Hq].
  - simpl. destruct (decide (Exists (fun r => prot_id r <> q_id r0) op)) as [Ho|Ho].
    + destruct (write_operon_record q r0 out op Ho) as (o & -> & Hd).
      destruct (IH (out ++ [record_line o])) as (recs & -> & Hrecs).
      exists (o :: recs). rewrite decide_True by done.
      split; [by rewrite <- app_assoc|by constructor].
    + rewrite write_operon_self_only.
      * destruct (IH out) as (recs & -> & Hrecs). exists recs.
        rewrite decide_False by (by intros [_ ?]). done.
      * apply Forall_forall. intros r Hr.
        destruct (decide (prot_id r = q_id r0)); [done|].
        destruct Ho. apply Exists_exists. eauto.
  - destruct (IH out) as (recs & -> & Hrecs). exists recs.
    rewrite decide_False by (by intros [? _]). done.
Qed.

(** ** The run on a line with bad coordinates *)

Lemma bad_coordinates_literal line :
  bad_coordinates line = true ->
  exists lit,
    lit = (if is_int (field (fields line) 7) then field (fields line) 8
           else field (fields line) 7)
    /\ is_int lit = false
    /\ parse_line line = Raise (ValueError lit).
Proof.
  unfold bad_coordinates, is_int. rewrite parse_line_unfold.
  destruct (Nat.leb_spec 12 (length (fields line))) as [Hge|]; [|done].
  destruct (Nat.ltb_spec (length (fields line)) 12); [lia|]. simpl.
  destruct (Py.int (field (fields line) 7)) as [a|e] eqn:H7.
  - destruct (Py.int (field (fields line) 8)) as [b|e] eqn:H8; [done|].
    intros _. exists (field (fields line) 8). rewrite H8.
    by rewrite (int_raises _ _ H8).
  - intros _. exists (field (fields line) 7). rewrite H7.
    by rewrite (int_raises _ _ H7).
Qed.

Lemma read_app_raise before line after e :
  Forall (fun l => bad_coordinates l = false) before ->
  parse_line line = Raise e ->
  read (before ++ line :: after) = (parsed_rows before, Raised e).
Proof.
  intros Hb Hline. unfold parsed_rows.
  induction Hb as [|l before Hl _ IH]; simpl.
  - by rewrite Hline.
  - unfold parsed. destruct (parse_line_accepts _ Hl) as [[r|] ->]; by rewrite IH.
Qed.

Lemma handed_out_elem e (b : Block) bs : b ∈ handed_out e bs -> b ∈ bs.
Proof.
  destruct e as [|e]; [done|]. simpl.
  induction bs as [|b' [|b'' bs] IH]; simpl; [done|by intros ?%elem_of_nil|].
  intros [->|Hb]%elem_of_cons; [left|right; by apply IH].
Qed.

Lemma runs_elem q rows rs m : (q, rows) ∈ runs rs -> m ∈ rows -> m ∈ rs.
Proof.
  intros Hb Hm. rewrite <- (concat_runs rs).
  apply list_elem_of_In, in_concat. exists rows. split.
  - apply list_elem_of_In, list_elem_of_fmap. by exists (q, rows).
  - by apply list_elem_of_In.
Qed.


(** * The claims *)

(** ** Clusters *)

(** C1. In the clusters that [build_operons] returns, two consecutive
    members [a], [b] of one cluster satisfy [start b - stop a <= max_gap]
    and, when [require_same_strand] is set, have equal strands; and where a
    cluster ends and the next one begins on the same contig, the first member
    of the next cluster fails that condition against the last member of the
    cluster before.  (Every cluster lies on one contig, so the two clusters
    share a contig as soon as these two members do.)  This holds for every
    [max_gap], negative ones included. *)
Theorem build_operons_adjacency
    (rows : list GeneRecord) (max_gap : Z) (require_same_strand : bool) :
  (forall c l1 a b l2,
      c ∈ build_operons rows max_gap require_same_strand ->
      c = l1 ++ a :: b :: l2 ->
      start b - stop a <= max_gap
      /\ (require_same_strand = true -> strand a = strand b))
  /\ (forall p c1 c2 q a b,
         build_operons rows max_gap require_same_strand = p ++ c1 :: c2 :: q ->
         last c1 = Some a -> head c2 = Some b -> contig a = contig b ->
         ~ (start b - stop a <= max_gap
            /\ (require_same_strand = true -> strand a = strand b))).
Proof.
  pose proof (build_operons_facts rows max_gap require_same_strand) as H.
  cbv zeta in H. destruct H as (_ & Hch & Hbd & _). split.
  - intros c l1 a b l2 Hc ->. rewrite Forall_forall in Hch.
    by destruct (Hch _ Hc l1 a b l2 eq_refl) as [_ Hl].
  - intros p c1 c2 q a b Heq Ha Hb Hcab.
    exact (Hbd p c1 c2 q Heq a b Ha Hb Hcab).
Qed.

Lemma build_operons_adjacency_witness :
  (start row2 - stop row1 <= 50 /\ (false = true -> strand row1 = strand row2))
  /\ ~ (start row3 - stop row2 <= 50 /\ (false = true -> strand row2 = strand row3)).
Proof.
  destruct (build_operons_adjacency [row3; row1; row2] 50 false) as [Hin Hbd].
  split.
  - apply (Hin [row1; row2] [] row1 row2 []); [|reflexivity].
    vm_compute. left.
  - apply (Hbd [] [row1; row2] [row3] [] row2 row3); reflexivity.
Defined.

(** C7. Every cluster that [build_operons] returns is non-empty and has all
    its members on one contig, and the clusters, one after the other, hold
    exactly the rows of the block: each row is in one cluster, once. *)
Theorem build_operons_partition
    (rows : list GeneRecord) (max_gap : Z) (require_same_strand : bool) :
  Forall (fun c => c <> [] /\ exists ctg, Forall (fun r => contig r = ctg) c)
         (build_operons rows max_gap require_same_strand)
  /\ concat (build_operons rows max_gap require_same_strand) ≡ₚ rows.
Proof.
  pose proof (build_operons_facts rows max_gap require_same_strand) as H.
  cbv zeta in H. destruct H as (Hne & Hch & _ & Hcat). split.
  - rewrite Forall_forall in *. intros c Hc. split; [by apply Hne|].
    destruct c as [|m0 c]; [by destruct (Hne _ Hc)|].
    exists (contig m0). apply Forall_forall. intros r Hr.
    apply (adjacent_eq_all contig (m0 :: c)); [|done|left].
    eapply adjacent_impl; [|by apply Hch]. by intros a b [? _].
  - rewrite Hcat. apply rows_sorted_perm.
Qed.

(** C9. The sort in [build_operons] is stable: read through the clusters in
    order, the rows with one key [(contig, start, stop)] come in the order
    they have in the block.  The order of the keys being total, no other
    arrangement of the block is sorted and stable, so the clusters depend on
    the block alone and not on how the sort is carried out. *)
Theorem build_operons_sort_stable
    (rows : list GeneRecord) (max_gap : Z) (require_same_strand : bool) :
  (forall k,
      filter (fun r => sort_key r = k)
             (concat (build_operons rows max_gap require_same_strand))
      = filter (fun r => sort_key r = k) rows)
  /\ StronglySorted row_le (concat (build_operons rows max_gap require_same_strand))
  /\ (forall l, StronglySorted row_le l -> stable_of rows l ->
                l = concat (build_operons rows max_gap require_same_strand)).
Proof.
  pose proof (build_operons_facts rows max_gap require_same_strand) as H.
  cbv zeta in H. destruct H as (_ & _ & _ & ->). split_and!.
  - apply rows_sorted_stable.
  - apply rows_sorted_strongly.
  - apply rows_sorted_unique.
Qed.

(** C10. With [max_gap] not negative, a row on the contig of the last member
    of the current cluster that starts at or before the stop of that member,
    and passes the strand check, is appended to the current cluster by the
    loop of [build_operons]; so in its result a new cluster on the same contig
    with the strand check passing begins only after the stop of the cluster
    before. *)
Theorem overlap_never_splits (max_gap : Z) (require_same_strand : bool) :
  0 <= max_gap ->
  (forall operons current prev r,
      last current = Some prev -> contig r = contig prev ->
      start r <= stop prev ->
      (require_same_strand = false \/ strand r = strand prev) ->
      chain_step max_gap require_same_strand (operons, current) r
      = (operons, current ++ [r]))
  /\ (forall rows p c1 c2 q a b,
         build_operons rows max_gap require_same_strand = p ++ c1 :: c2 :: q ->
         last c1 = Some a -> head c2 = Some b -> contig a = contig b ->
         (require_same_strand = false \/ strand a = strand b) ->
         stop a < start b).
Proof.
  intros Hgap. split.
  - intros operons current prev r Hlast Hc Hov Hs. unfold chain_step.
    rewrite Hlast. rewrite (proj2 (String.eqb_eq _ _) Hc). simpl.
    rewrite (proj2 (link_decide max_gap require_same_strand prev r)); [done|].
    split; [lia|]. destruct Hs; congruence.
  - intros rows p c1 c2 q a b Heq Ha Hb Hc Hs.
    pose proof (build_operons_facts rows max_gap require_same_strand) as H.
    cbv zeta in H. destruct H as (_ & _ & Hbd & _).
    destruct (Z.lt_ge_cases (stop a) (start b)) as [|Hov]; [done|].
    destruct (Hbd p c1 c2 q Heq a b Ha Hb Hc).
    split; [lia|]. destruct Hs; congruence.
Qed.

Lemma build_operons_sort_stable_witness :
  [row1; row2] = concat (build_operons [row2; row1] 50 false).
Proof.
  destruct (build_operons_sort_stable [row2; row1] 50 false) as (_ & _ & Huniq).
  apply Huniq.
  - repeat constructor.
  - intros k. rewrite !filter_cons, !filter_nil.
    repeat case_decide; try done; subst; discriminate.
Defined.

Lemma overlap_never_splits_witness :
  chain_step 50 false ([], [row4]) row5 = ([], [row4] ++ [row5])
  /\ stop row2 < start row3.
Proof.
  destruct (overlap_never_splits 50 false ltac:(lia)) as [Hstep Hout]. split.
  - apply (Hstep [] [row4] row4 row5); [reflexivity|reflexivity|by vm_compute|by left].
  - apply (Hout [row1; row2; row3] [] [row1; row2] [row3] []);
      [reflexivity|reflexivity|reflexivity|reflexivity|by left].
Defined.

(** ** Blocks *)

(** C2, as stated, fails: the third line has a column 8 that [int] rejects,
    [parse_line] raises on it, and the block of the second line, which was
    being accumulated, is never handed out. *)
Lemma blocks_by_query_runs_counterexample :
  blocks_by_query [line1; line6; bad_line]
  = ([("Q1#1|E_coli", [row1])], Raised (ValueError "3e2"))
  /\ runs (parsed_rows [line1; line6; bad_line])
     = [("Q1#1|E_coli", [row1]); ("Q2#1|E_coli", [row6])]
  /\ (blocks_by_query [line1; line6; bad_line]).1
     <> runs (parsed_rows [line1; line6; bad_line]).
Proof. split_and!; [reflexivity|reflexivity|by vm_compute]. Qed.

(** C2, amended.  On input in which no line with twelve fields or more has
    a column 8 or 9 that [int] rejects (no decimal literal, or one of more
    than 4300 digits), [blocks_by_query] ends normally and
    yields exactly the maximal runs of consecutive parsed rows with one
    [q_full], in input order: the blocks together are the parsed rows, each
    block is non-empty and carries the [q_full] of all its rows, and two
    blocks in a row have different keys (so a key that comes back after
    another one starts a block of its own, and the last block is yielded
    when the input ends); no other list of blocks has these properties. *)
Theorem blocks_by_query_runs (lines : list string) :
  Forall (fun line => bad_coordinates line = false) lines ->
  blocks_by_query lines = (runs (parsed_rows lines), Exhausted)
  /\ concat ((fun b : Block => b.2) <$> (blocks_by_query lines).1) = parsed_rows lines
  /\ Forall (fun b : Block => b.2 <> [] /\ Forall (fun r => q_full r = b.1) b.2)
            (blocks_by_query lines).1
  /\ adjacent (fun b1 b2 : Block => b1.1 <> b2.1) (blocks_by_query lines).1
  /\ (forall bs : list Block,
         concat ((fun b : Block => b.2) <$> bs) = parsed_rows lines ->
         Forall (fun b : Block => b.2 <> [] /\ Forall (fun r => q_full r = b.1) b.2) bs ->
         adjacent (fun b1 b2 : Block => b1.1 <> b2.1) bs ->
         bs = (blocks_by_query lines).1).
Proof.
  intros Hok. rewrite blocks_by_query_read, (read_ok _ Hok). simpl.
  split_and!; [done|apply concat_runs|apply runs_uniform|apply runs_adjacent|].
  intros bs <- Hbs Hadj. by apply runs_unique.
Qed.

Lemma blocks_by_query_runs_witness :
  blocks_by_query [line1; short_line; nl; line2; line6; line1]
  = ([("Q1#1|E_coli", [row1; row2]); ("Q2#1|E_coli", [row6]);
      ("Q1#1|E_coli", [row1])], Exhausted).
Proof.
  destruct (blocks_by_query_runs [line1; short_line; nl; line2; line6; line1])
    as [-> _]; [|reflexivity].
  repeat (constructor; [reflexivity|]). constructor.
Defined.

(** C6, as stated, fails: the first line is parsed, the second one makes
    [parse_line] raise, and the row of the first line is in no block. *)
Lemma blocks_by_query_concat_counterexample :
  parse_line line1 = Ok (Some row1)
  /\ parsed_rows [line1; bad_line] = [row1]
  /\ blocks_by_query [line1; bad_line] = ([], Raised (ValueError "3e2"))
  /\ concat ((fun b : Block => b.2) <$> (blocks_by_query [line1; bad_line]).1)
     <> parsed_rows [line1; bad_line].
Proof. split_and!; [reflexivity|reflexivity|reflexivity|by vm_compute]. Qed.

(** C6, amended.  On input in which no line with twelve fields or more has
    a column 8 or 9 that [int] rejects (no decimal literal, or one of more
    than 4300 digits), the rows of the blocks that
    [blocks_by_query] yields, block after block, are the parsed rows in input
    order: none is lost and none comes twice. *)
Theorem blocks_by_query_concat (lines : list string) :
  Forall (fun line => bad_coordinates line = false) lines ->
  concat ((fun b : Block => b.2) <$> (blocks_by_query lines).1) = parsed_rows lines.
Proof.
  intros Hok. rewrite blocks_by_query_read, (read_ok _ Hok). apply concat_runs.
Qed.

Lemma blocks_by_query_concat_witness :
  concat ((fun b : Block => b.2)
            <$> (blocks_by_query [line1; short_line; line6; nl; line2]).1)
  = [row1; row6; row2].
Proof.
  rewrite (blocks_by_query_concat [line1; short_line; line6; nl; line2]);
    [reflexivity|].
  repeat (constructor; [reflexivity|]). constructor.
Defined.

(** C3, as stated, fails: a line whose column 8 is no integer is not
    skipped.  With it the run hands out nothing and ends with a
    [ValueError]; without it the two other lines make one block. *)
Lemma bad_coordinates_skipped_counterexample :
  bad_coordinates bad_line = true
  /\ blocks_by_query [line1; bad_line; line2] = ([], Raised (ValueError "3e2"))
  /\ blocks_by_query [line1; line2] = ([("Q1#1|E_coli", [row1; row2])], Exhausted)
  /\ ~ (forall line before after,
           bad_coordinates line = true ->
           blocks_by_query (before ++ line :: after) = blocks_by_query (before ++ after)).
Proof.
  split_and!; [reflexivity..|].
  intros H. by specialize (H bad_line [line1] [line2] eq_refl).
Qed.

(** C3, amended.  A line with twelve fields or more whose column 8 or 9
    [int] rejects (no decimal literal, or one of more than 4300 digits) is not
    skipped: [parse_line] raises [ValueError] on column 8 when [int] rejects
    it and otherwise on column 9, and nothing catches it.  At the first such
    line [blocks_by_query] ends with that error, after yielding the completed
    blocks of the rows before the line; the block being accumulated is not
    yielded and the lines after are not read; [main] has written the lines of
    the yielded blocks and ends with the same error. *)
Theorem bad_coordinates_raise
    (before : list string) (line : string) (after : list string)
    (max_gap : Z) (require_same_strand : bool) :
  Forall (fun l => bad_coordinates l = false) before ->
  bad_coordinates line = true ->
  exists lit,
    lit = (if is_int (field (fields line) 7) then field (fields line) 8
           else field (fields line) 7)
    /\ is_int lit = false
    /\ parse_line line = Raise (ValueError lit)
    /\ blocks_by_query (before ++ line :: after)
       = (removelast (runs (parsed_rows before)), Raised (ValueError lit))
    /\ main (before ++ line :: after) max_gap require_same_strand
       = (fold_left (process_block max_gap require_same_strand)
                    (removelast (runs (parsed_rows before))) [header],
          Raised (ValueError lit)).
Proof.
  intros Hok Hbad.
  destruct (bad_coordinates_literal _ Hbad) as (lit & Hlit & Hint & Hraise).
  exists lit. split_and!; try done.
  - by rewrite blocks_by_query_read, (read_app_raise _ _ _ _ Hok Hraise).
  - unfold main.
    by rewrite blocks_by_query_read, (read_app_raise _ _ _ _ Hok Hraise).
Qed.

Lemma bad_coordinates_raise_witness :
  exists lit,
    lit = (if is_int (field (fields bad_line2) 7) then field (fields bad_line2) 8
           else field (fields bad_line2) 7)
    /\ is_int lit = false
    /\ parse_line bad_line2 = Raise (ValueError lit)
    /\ blocks_by_query ([line1; line6] ++ bad_line2 :: [line2])
       = (removelast (runs (parsed_rows [line1; line6])), Raised (ValueError lit))
    /\ main ([line1; line6] ++ bad_line2 :: [line2]) 50 false
       = (fold_left (process_block 50 false)
                    (removelast (runs (parsed_rows [line1; line6]))) [header],
          Raised (ValueError lit)).
Proof.
  apply (bad_coordinates_raise [line1; line6] bad_line2 [line2] 50 false).
  - repeat (constructor; [by vm_compute|]). constructor.
  - by vm_compute.
Defined.

(** C8. A line with twelve fields or more and integers in columns 8 and 9
    is accepted by [parse_line], with the smaller of the two integers as
    [start] and the larger as [stop]; every row that [parse_line] returns has
    [start <= stop]; and so has every member of every cluster built from a
    block that [blocks_by_query] yields. *)
Theorem coordinates_normalized :
  (forall line a b,
      (12 <= length (fields line))%nat ->
      Py.int (field (fields line) 7) = Ok a ->
      Py.int (field (fields line) 8) = Ok b ->
      exists r, parse_line line = Ok (Some r)
                /\ start r = Z.min a b /\ stop r = Z.max a b)
  /\ (forall line r, parse_line line = Ok (Some r) -> start r <= stop r)
  /\ (forall lines max_gap require_same_strand q rows c m,
         (q, rows) ∈ (blocks_by_query lines).1 ->
         c ∈ build_operons rows max_gap require_same_strand ->
         m ∈ c ->
         start m <= stop m).
Proof.
  split_and!.
  - intros line a b Hlen Ha Hb. rewrite parse_line_unfold, Ha, Hb.
    destruct (Nat.ltb_spec (length (fields line)) 12); [lia|].
    eexists. split; [reflexivity|]. done.
  - apply parse_line_start_stop.
  - intros lines max_gap rss q rows c m Hblk Hc Hm.
    rewrite blocks_by_query_read in Hblk. simpl in Hblk.
    apply handed_out_elem in Hblk.
    assert (m ∈ rows) as Hrows.
    { pose proof (build_operons_facts rows max_gap rss) as H.
      cbv zeta in H. destruct H as (_ & _ & _ & Hcat).
      rewrite <- (rows_sorted_perm rows), <- Hcat.
      apply list_elem_of_In, in_concat. exists c.
      split; by apply list_elem_of_In. }
    destruct (read_rows_parsed lines m) as (line & _ & Hline).
    { by eapply runs_elem. }
    by eapply parse_line_start_stop.
Qed.

Lemma coordinates_normalized_witness :
  (exists r, parse_line line2 = Ok (Some r)
             /\ start r = Z.min 260 210 /\ stop r = Z.max 260 210)
  /\ start row2 <= stop row2
  /\ start row1 <= stop row1.
Proof.
  destruct coordinates_normalized as (Hacc & Hrow & Hmem). split_and!.
  - apply Hacc; [by vm_compute|reflexivity|reflexivity].
  - apply (Hrow line2). reflexivity.
  - apply (Hmem [line1; line2] 50 false "Q1#1|E_coli" [row1; row2] [row1; row2] row1).
    + vm_compute. left.
    + vm_compute. left.
    + left.
Defined.

(** ** Output *)

(** C4. For a block, [main] writes one line per cluster that has a member
    with the [prot_id] of the query and a member with another [prot_id], in
    cluster order and nothing else; the line holds the key and the query
    fields of the block, the contig of the first member of the cluster, the
    least [start], the greatest [stop], the number of members, the members'
    [prot_id]s joined with commas, their [prot_id:start-stop] joined with
    commas, and [YES].  A query whose self row is in such clusters on two
    contigs gets two lines. *)
Theorem process_block_records
    (max_gap : Z) (require_same_strand : bool) (out : list string)
    (q : string) (r0 : GeneRecord) (rows : list GeneRecord) :
  exists recs : list OutRecord,
    process_block max_gap require_same_strand out (q, r0 :: rows)
    = out ++ (record_line <$> recs)
    /\ Forall2 (describes q r0)
               (filter (qualifying (q_id r0))
                       (build_operons (r0 :: rows) max_gap require_same_strand))
               recs.
Proof. unfold process_block. apply fold_write_operon_records. Qed.

Example process_block_two_contigs :
  process_block 50 false [] ("Q1#1|E_coli", [row1; row2; row3; row4; row5])
  = [record_line (mkOut "Q1#1|E_coli" "Q1#1" "E_coli" "GCF_1" "C1" 100 260 2
                    "N1#1,Q1#1" "N1#1:100-200,Q1#1:210-260" "YES");
     record_line (mkOut "Q1#1|E_coli" "Q1#1" "E_coli" "GCF_1" "C2" 10 150 2
                    "Q1#1,N5#1" "Q1#1:10-90,N5#1:80-150" "YES")].
Proof. reflexivity. Qed.

(** C5. A cluster of a block in which some member has the [prot_id] of the
    query and no member has another one writes no line: its turn in the loop
    leaves the output as it was, and the output of the block is what the
    other clusters write. *)
Theorem self_only_not_reported
    (max_gap : Z) (require_same_strand : bool) (out : list string)
    (q : string) (r0 : GeneRecord) (rows : list GeneRecord)
    (pre : list (list GeneRecord)) (op : list GeneRecord)
    (post : list (list GeneRecord)) :
  build_operons (r0 :: rows) max_gap require_same_strand = pre ++ op :: post ->
  Exists (fun r => prot_id r = q_id r0) op ->
  Forall (fun r => prot_id r = q_id r0) op ->
  write_operon q (q_id r0) (q_species r0) (assembly r0) out op = out
  /\ process_block max_gap require_same_strand out (q, r0 :: rows)
     = fold_left (write_operon q (q_id r0) (q_species r0) (assembly r0))
                 (query_operons (q_id r0) (pre ++ post)) out.
Proof.
  intros Hops Hq Hself. split; [by apply write_operon_self_only|].
  unfold process_block. rewrite Hops, !query_operons_filter.
  rewrite !filter_app, filter_cons, decide_True by done.
  rewrite !fold_left_app. simpl. by rewrite write_operon_self_only.
Qed.

Lemma self_only_not_reported_witness :
  write_operon "Q1#1|E_coli" "Q1#1" "E_coli" "GCF_1" [header] [row8] = [header]
  /\ process_block 50 false [header] ("Q1#1|E_coli", [row7; row8]) = [header].
Proof.
  destruct (self_only_not_reported 50 false [header] "Q1#1|E_coli"
              row7 [row8] [[row7]] [row8] [])
    as [Hstep Hblock].
  - reflexivity.
  - by left.
  - by repeat constructor.
  - split; [exact Hstep|]. rewrite Hblock. reflexivity.
Defined.

(** ** The examples of the specification *)

Example main_example_operon :
  main [ln "Q1#1|E_coli" "+" 100 200 "N1#1" "C1";
        ln "Q1#1|E_coli" "+" 210 260 "Q1#1" "C1"] 50 false
  = ([header;
      record_line (mkOut "Q1#1|E_coli" "Q1#1" "E_coli" "GCF_1" "C1" 100 260 2
                     "N1#1,Q1#1" "N1#1:100-200,Q1#1:210-260" "YES")],
     Exhausted).
Proof. reflexivity. Qed.

Example main_example_query_alone :
  main [ln "Q1#1|E_coli" "+" 100 140 "N1#1" "C1";
        ln "Q1#1|E_coli" "+" 300 350 "Q1#1" "C1"] 50 false
  = ([header], Exhausted).
Proof. reflexivity. Qed.

Example main_example_error :
  main [line1; line2; line6; bad_line] 50 false
  = ([header;
      record_line (mkOut "Q1#1|E_coli" "Q1#1" "E_coli" "GCF_1" "C1" 100 260 2
                     "N1#1,Q1#1" "N1#1:100-200,Q1#1:210-260" "YES")],
     Raised (ValueError "3e2")).
Proof. reflexivity. Qed.

(** Rows with one key keep the order of the block. *)
Example sorted_keeps_ties :
  Py.sorted sort_key key_lt [row3; row8; row1; row2; row8; row7; row1]
  = [row7; row1; row1; row2; row8; row8; row3]
  /\ Py.sorted sort_key key_lt
       [mkGene "q" "q" "" "+" 1 2 "b" "C" "A"; mkGene "q" "q" "" "+" 1 2 "a" "C" "A"]
     = [mkGene "q" "q" "" "+" 1 2 "b" "C" "A"; mkGene "q" "q" "" "+" 1 2 "a" "C" "A"].
Proof. split; reflexivity. Qed.

(** * Further properties of the code *)

(** ** The clusters as the pieces of the sorted block *)

Lemma segments_unfold {A} (R : A -> A -> bool) x l :
  segments R (x :: l) =
  match segments R l with
  | (y :: c) :: cs =>
      if R x y then (x :: y :: c) :: cs else [x] :: (y :: c) :: cs
  | _ => [[x]]
  end.
Proof. done. Qed.

Lemma segments_head {A} (R : A -> A -> bool) x l :
  exists c cs, segments R (x :: l) = (x :: c) :: cs.
Proof.
  rewrite segments_unfold. destruct (segments R l) as [|[|y c] cs]; eauto.
  destruct (R x y); eauto.
Qed.

Lemma segments_app_chunk {A} (R : A -> A -> bool) c rest :
  c <> [] -> adjacent (fun a b => R a b = true) c ->
  (forall a b, last c = Some a -> head rest = Some b -> R a b = false) ->
  segments R (c ++ rest) = c :: segments R rest.
Proof.
  induction c as [|a c IH]; intros Hne Hadj Hcut; [done|].
  apply adjacent_cons in Hadj as [Hhd Hadj].
  destruct c as [|a' c].
  - simpl app. rewrite segments_unfold. destruct rest as [|b rest]; [done|].
    destruct (segments_head R b rest) as (c' & cs' & ->).
    by rewrite (Hcut a b).
  - change ((a :: a' :: c) ++ rest) with (a :: ((a' :: c) ++ rest)).
    rewrite segments_unfold, IH; [|done|done|].
    + by rewrite (Hhd a').
    + intros x y Hx Hy. apply Hcut; [|done]. by rewrite last_cons, Hx.
Qed.

Lemma segments_unique {A} (R : A -> A -> bool) (cs : list (list A)) :
  Forall (fun c => c <> []) cs ->
  Forall (adjacent (fun a b => R a b = true)) cs ->
  adjacent (fun c1 c2 => forall a b, last c1 = Some a -> head c2 = Some b ->
                                   R a b = false) cs ->
  cs = segments R (concat cs).
Proof.
  induction cs as [|c cs IH]; intros Hne Hin Hcut; [done|].
  apply Forall_cons in Hne as [Hc Hne]. apply Forall_cons in Hin as [Hcin Hin].
  apply adjacent_cons in Hcut as [Hhd Hcut]. simpl.
  rewrite segments_app_chunk; [by rewrite <- IH|done|done|].
  intros a b Ha Hb. destruct cs as [|c' cs]; [done|].
  apply Forall_cons in Hne as [Hc' _]. apply (Hhd c' eq_refl a b Ha).
  destruct c'; [done|]. by simpl in *.
Qed.

Lemma linked_true max_gap rss a b :
  linked max_gap rss a b = true <-> contig a = contig b /\ link max_gap rss a b.
Proof.
  unfold linked. rewrite <- andb_assoc, andb_true_iff, String.eqb_eq, link_decide.
  intuition congruence.
Qed.

Lemma build_operons_segments rows max_gap rss :
  build_operons rows max_gap rss
  = segments (linked max_gap rss) (Py.sorted sort_key key_lt rows).
Proof.
  pose proof (build_operons_facts rows max_gap rss) as H.
  cbv zeta in H. destruct H as (Hne & Hch & Hbd & <-).
  apply segments_unique; [done| |].
  - eapply Forall_impl; [exact Hch|]. intros c Hc.
    eapply adjacent_impl; [|exact Hc]. intros a b. by rewrite linked_true.
  - eapply adjacent_impl; [|exact Hbd]. intros c1 c2 Hb a b Ha Hb'.
    apply not_true_is_false. rewrite linked_true. intros [Hc Hl].
    by apply (Hb a b).
Qed.

Lemma segments_refine {A} (R R' : A -> A -> bool) l :
  (forall a b, R a b = true -> R' a b = true) ->
  exists gs : list (list (list A)),
    Forall (fun g => g <> []) gs
    /\ concat gs = segments R l
    /\ (fun g => concat g) <$> gs = segments R' l.
Proof.
  intros HR. induction l as [|x l IH]; [by exists []|].
  destruct IH as (gs & Hne & Hcat & Hmap).
  destruct l as [|y l].
  { exists [[[x]]]. split_and!; try done. by repeat constructor. }
  rewrite (segments_unfold R x), (segments_unfold R' x).
  destruct (segments_head R y l) as (c & cs & Hs).
  destruct (segments_head R' y l) as (c' & cs' & Hs').
  rewrite Hs, Hs' in *.
  destruct gs as [|g1 gs]; [done|].
  apply Forall_cons in Hne as [Hg1 Hne].
  destruct g1 as [|c1 g1]; [done|]. simpl in Hcat, Hmap.
  injection Hcat as -> Hcs. injection Hmap as Hc' Hcs'.
  destruct (R x y) eqn:HRxy.
  - rewrite (HR _ _ HRxy).
    exists (((x :: y :: c) :: g1) :: gs). split_and!.
    + by constructor.
    + simpl. by rewrite Hcs.
    + simpl. by rewrite <- Hc', <- Hcs'.
  - destruct (R' x y).
    + exists (([x] :: (y :: c) :: g1) :: gs). split_and!.
      * by constructor.
      * simpl. by rewrite Hcs.
      * simpl. by rewrite <- Hc', <- Hcs'.
    + exists ([[x]] :: ((y :: c) :: g1) :: gs). split_and!.
      * by repeat constructor.
      * simpl. by rewrite Hcs.
      * simpl. by rewrite <- Hc', <- Hcs'.
Qed.

Lemma sorted_id l :
  StronglySorted row_le l -> Py.sorted sort_key key_lt l = l.
Proof. intros Hl. symmetry. by apply rows_sorted_unique. Qed.

Lemma concat_elem_split {A} (c : list A) cs :
  c ∈ cs -> exists pre post, concat cs = pre ++ c ++ post.
Proof.
  intros (l1 & l2 & ->)%list_elem_of_split.
  exists (concat l1), (concat l2). by rewrite concat_app.
Qed.

Lemma cluster_strongly_sorted rows max_gap rss c :
  c ∈ build_operons rows max_gap rss -> StronglySorted row_le c.
Proof.
  intros Hc. pose proof (build_operons_facts rows max_gap rss) as H.
  cbv zeta in H. destruct H as (_ & _ & _ & Hcat).
  destruct (concat_elem_split _ _ Hc) as (pre & post & Hsplit).
  pose proof (rows_sorted_strongly rows) as Hs.
  rewrite <- Hcat, Hsplit in Hs.
  by apply StronglySorted_app_1_r, StronglySorted_app_1_l in Hs.
Qed.

Lemma cluster_chained rows max_gap rss c :
  c ∈ build_operons rows max_gap rss -> c <> [] /\ chained max_gap rss c.
Proof.
  intros Hc. pose proof (build_operons_facts rows max_gap rss) as H.
  cbv zeta in H. destruct H as (Hne & Hch & _ & _).
  rewrite Forall_forall in Hne, Hch. split; [by apply Hne|by apply Hch].
Qed.

Lemma row_le_start a b : row_le a b -> contig a = contig b -> start a <= start b.
Proof.
  unfold row_le, key_le, sort_key. intros Hle Hc.
  destruct (Z.le_gt_cases (start a) (start b)) as [|Hgt]; [done|].
  assert (key_lt (contig b, start b, stop b) (contig a, start a, stop a) = true)
    as Hlt; [|congruence].
  apply key_lt_spec. right. split; [done|]. left. lia.
Qed.

Lemma py_min_first x l : Forall (fun y => x <= y) l -> Py.min x l = x.
Proof.
  unfold Py.min. induction 1 as [|y l Hy _ IH]; simpl; [done|].
  by rewrite Z.min_l.
Qed.

Lemma filter_key_length (l : list GeneRecord) k :
  NoDup (sort_key <$> l) -> (length (filter (fun r => sort_key r = k) l) <= 1)%nat.
Proof.
  induction l as [|r l IH]; simpl; [lia|].
  intros [Hr Hl]%NoDup_cons. rewrite filter_cons.
  destruct (decide (sort_key r = k)) as [<-|]; [|by apply IH].
  destruct (filter (fun r' => sort_key r' = sort_key r) l) as [|r' fl] eqn:Hf;
    [simpl; lia|].
  assert (r' ∈ filter (fun r' => sort_key r' = sort_key r) l) as Hin
    by (rewrite Hf; left).
  apply list_elem_of_filter in Hin as [Hkey Hr'].
  destruct Hr. rewrite <- Hkey. by apply list_elem_of_fmap_2.
Qed.

Lemma short_perm_eq {A} (l1 l2 : list A) :
  l1 ≡ₚ l2 -> (length l1 <= 1)%nat -> l1 = l2.
Proof.
  intros Hp Hlen. destruct l1 as [|x [|y l1]]; simpl in *; [| |lia].
  - by apply Permutation_nil in Hp.
  - by apply Permutation_singleton_l in Hp.
Qed.

(** X1. The clusters of [build_operons] are maximal: they are the only way
    to cut the sorted block into non-empty pieces whose neighbours are on one
    contig and satisfy the chaining condition, with the condition failing or
    the contig changing between every two pieces in a row. *)
Theorem build_operons_unique
    (rows : list GeneRecord) (max_gap : Z) (require_same_strand : bool)
    (cs : list (list GeneRecord)) :
  concat cs = concat (build_operons rows max_gap require_same_strand) ->
  Forall (fun c => c <> []) cs ->
  Forall (chained max_gap require_same_strand) cs ->
  adjacent (boundary max_gap require_same_strand) cs ->
  cs = build_operons rows max_gap require_same_strand.
Proof.
  intros Hcat Hne Hch Hbd. rewrite build_operons_segments in *.
  pose proof (build_operons_facts rows max_gap require_same_strand) as H.
  cbv zeta in H. destruct H as (_ & _ & _ & Hsorted).
  rewrite build_operons_segments in Hsorted. rewrite Hsorted in Hcat.
  rewrite <- Hcat. apply segments_unique; [done| |].
  - eapply Forall_impl; [exact Hch|]. intros c Hc.
    eapply adjacent_impl; [|exact Hc]. intros a b. by rewrite linked_true.
  - eapply adjacent_impl; [|exact Hbd]. intros c1 c2 Hb a b Ha Hb'.
    apply not_true_is_false. rewrite linked_true. intros [Hc Hl].
    by apply (Hb a b).
Qed.

Lemma build_operons_unique_witness :
  [[row1; row2]; [row3]] = build_operons [row3; row1; row2] 50 false.
Proof.
  apply build_operons_unique.
  - reflexivity.
  - by repeat constructor.
  - constructor; [|constructor; [apply adjacent_singleton|constructor]].
    apply adjacent_cons. split; [|apply adjacent_singleton].
    intros y [= <-]. split; [reflexivity|]. split; [by vm_compute|done].
  - apply adjacent_cons. split; [|apply adjacent_singleton].
    intros c [= <-] a b [= <-] [= <-] _ [Hgap _]. by apply Hgap.
Defined.

(** X2. Raising [max_gap], or dropping the strand requirement, only merges
    clusters: the clusters for the wider setting are obtained by joining
    groups of consecutive clusters of the narrower one. *)
Theorem build_operons_coarser
    (rows : list GeneRecord) (max_gap max_gap' : Z)
    (require_same_strand require_same_strand' : bool) :
  max_gap <= max_gap' ->
  (require_same_strand' = true -> require_same_strand = true) ->
  exists groups : list (list (list GeneRecord)),
    concat groups = build_operons rows max_gap require_same_strand
    /\ (fun g => concat g) <$> groups = build_operons rows max_gap' require_same_strand'.
Proof.
  intros Hgap Hs. rewrite !build_operons_segments.
  destruct (segments_refine (linked max_gap require_same_strand)
              (linked max_gap' require_same_strand')
              (Py.sorted sort_key key_lt rows)) as (gs & _ & H1 & H2); [|eauto].
  intros a b. rewrite !linked_true. unfold link.
  intros (Hc & Hg & Hst). split_and!; [done|lia|]. intros H. auto.
Qed.

Lemma build_operons_coarser_witness :
  exists groups : list (list (list GeneRecord)),
    concat groups = build_operons [row1; row2; row3] 50 true
    /\ (fun g => concat g) <$> groups = build_operons [row1; row2; row3] 200 false.
Proof. apply build_operons_coarser; [lia|discriminate]. Defined.

(** X3. With [require_same_strand] set, all members of a cluster have the
    same strand. *)
Theorem same_strand_clusters
    (rows : list GeneRecord) (max_gap : Z) (c : list GeneRecord)
    (x y : GeneRecord) :
  c ∈ build_operons rows max_gap true -> x ∈ c -> y ∈ c -> strand x = strand y.
Proof.
  intros Hc. destruct (cluster_chained _ _ _ _ Hc) as [_ Hch].
  apply (adjacent_eq_all strand c).
  eapply adjacent_impl; [|exact Hch]. intros a b [_ [_ Hs]]. by apply Hs.
Qed.

Lemma same_strand_clusters_witness : strand row1 = strand row2.
Proof.
  apply (same_strand_clusters [row1; row2; row3] 200 [row1; row2]).
  - vm_compute. left.
  - left.
  - right. left.
Defined.

(** X4. Inside a cluster the members come with ascending [start], so the
    [operon_start] that [main] computes as the least [start] is the [start] of
    the first member. *)
Theorem cluster_starts_ascend
    (rows : list GeneRecord) (max_gap : Z) (require_same_strand : bool)
    (c : list GeneRecord) :
  c ∈ build_operons rows max_gap require_same_strand ->
  StronglySorted (fun a b => start a <= start b) c
  /\ (forall m0 ms, c = m0 :: ms -> Py.min (start m0) (start <$> ms) = start m0).
Proof.
  intros Hc. destruct (cluster_chained _ _ _ _ Hc) as [_ Hch].
  pose proof (cluster_strongly_sorted _ _ _ _ Hc) as Hs.
  assert (forall a b, a ∈ c -> b ∈ c -> contig a = contig b) as Hcontig.
  { apply (adjacent_eq_all contig c).
    eapply adjacent_impl; [|exact Hch]. by intros a b [? _]. }
  assert (StronglySorted (fun a b => start a <= start b) c) as Hstart.
  { clear Hc Hch. induction Hs as [|a c Hs IH Ha]; [constructor|].
    constructor.
    - apply IH. intros x y Hx Hy. apply Hcontig; by right.
    - rewrite Forall_forall in *. intros b Hb.
      apply row_le_start; [by apply Ha|]. apply Hcontig; [left|by right]. }
  split; [done|]. intros m0 ms ->.
  apply StronglySorted_inv in Hstart as [_ Hm0].
  apply py_min_first. by rewrite Forall_fmap.
Qed.

Lemma cluster_starts_ascend_witness :
  StronglySorted (fun a b => start a <= start b) [row1; row2]
  /\ (forall m0 ms, [row1; row2] = m0 :: ms ->
        Py.min (start m0) (start <$> ms) = start m0).
Proof.
  apply (cluster_starts_ascend [row3; row2; row1] 50 false).
  vm_compute. left.
Defined.

(** X5. When no two rows of a block have the same key [(contig, start,
    stop)], the order of the rows in the block does not matter for the
    clusters. *)
Theorem build_operons_order_irrelevant
    (rows rows' : list GeneRecord) (max_gap : Z) (require_same_strand : bool) :
  rows ≡ₚ rows' ->
  NoDup (sort_key <$> rows) ->
  build_operons rows max_gap require_same_strand
  = build_operons rows' max_gap require_same_strand.
Proof.
  intros Hp Hnd. rewrite !build_operons_segments. f_equal.
  symmetry. apply rows_sorted_unique; [apply rows_sorted_strongly|].
  intros k. rewrite rows_sorted_stable. symmetry.
  apply short_perm_eq; [by rewrite Hp|by apply filter_key_length].
Qed.

Lemma build_operons_order_irrelevant_witness :
  build_operons [row3; row1; row2] 50 false
  = build_operons [row1; row2; row3] 50 false.
Proof.
  apply build_operons_order_irrelevant.
  - apply (Permutation_cons_append [row1; row2] row3).
  - apply (bool_decide_unpack _). by vm_compute.
Defined.

(** X6. Clustering again changes nothing: the rows of all clusters, in
    cluster order, give back the same clusters, and the rows of one cluster
    give back that cluster alone. *)
Theorem build_operons_idempotent
    (rows : list GeneRecord) (max_gap : Z) (require_same_strand : bool) :
  build_operons (concat (build_operons rows max_gap require_same_strand))
                max_gap require_same_strand
  = build_operons rows max_gap require_same_strand
  /\ (forall c, c ∈ build_operons rows max_gap require_same_strand ->
                build_operons c max_gap require_same_strand = [c]).
Proof.
  split.
  - pose proof (build_operons_facts rows max_gap require_same_strand) as H.
    cbv zeta in H. destruct H as (_ & _ & _ & ->).
    rewrite (build_operons_segments (Py.sorted _ _ _)), build_operons_segments.
    by rewrite sorted_id by apply rows_sorted_strongly.
  - intros c Hc. destruct (cluster_chained _ _ _ _ Hc) as [Hne Hch].
    rewrite build_operons_segments, sorted_id
      by (by eapply cluster_strongly_sorted).
    assert ([c] = segments (linked max_gap require_same_strand) (concat [c]))
      as Hu.
    { apply segments_unique.
      - by constructor.
      - constructor; [|constructor].
        eapply adjacent_impl; [|exact Hch]. intros a b. by rewrite linked_true.
      - apply adjacent_singleton. }
    simpl in Hu. by rewrite app_nil_r in Hu.
Qed.

Lemma build_operons_idempotent_witness :
  build_operons [row1; row2] 50 false = [[row1; row2]].
Proof.
  destruct (build_operons_idempotent [row3; row2; row1] 50 false) as [_ H].
  apply H. vm_compute. left.
Defined.

(** ** The run as a whole *)

Lemma write_operon_app q qid sp asm out op :
  write_operon q qid sp asm out op = out ++ write_operon q qid sp asm [] op.
Proof.
  unfold write_operon. destruct (_ =? 0)%nat; [by rewrite app_nil_r|].
  destruct op; [by rewrite app_nil_r|done].
Qed.

Lemma fold_write_operon_out q qid sp asm ops out :
  fold_left (write_operon q qid sp asm) ops out
  = out ++ fold_left (write_operon q qid sp asm) ops [].
Proof.
  revert out. induction ops as [|op ops IH]; intros out; simpl.
  - by rewrite app_nil_r.
  - rewrite IH, (IH (write_operon _ _ _ _ [] op)), write_operon_app.
    by rewrite <- app_assoc.
Qed.

Lemma process_block_out max_gap rss out blk :
  process_block max_gap rss out blk = out ++ process_block max_gap rss [] blk.
Proof.
  destruct blk as [q [|r0 rows]]; simpl; [by rewrite app_nil_r|].
  apply fold_write_operon_out.
Qed.

Lemma fold_process_block max_gap rss blocks out :
  fold_left (process_block max_gap rss) blocks out
  = out ++ concat (process_block max_gap rss [] <$> blocks).
Proof.
  revert out. induction blocks as [|blk blocks IH]; intros out; simpl.
  - by rewrite app_nil_r.
  - by rewrite IH, process_block_out, <- app_assoc.
Qed.

Lemma cluster_member rows max_gap rss c m :
  c ∈ build_operons rows max_gap rss -> m ∈ c -> m ∈ rows.
Proof.
  intros Hc Hm. pose proof (build_operons_facts rows max_gap rss) as H.
  cbv zeta in H. destruct H as (_ & _ & _ & Hcat).
  rewrite <- (rows_sorted_perm rows), <- Hcat.
  apply list_elem_of_In, in_concat. exists c. split; by apply list_elem_of_In.
Qed.

Lemma read_exhausted lines :
  (read lines).2 = Exhausted -> Forall (fun l => bad_coordinates l = false) lines.
Proof.
  induction lines as [|line lines IH]; simpl; [constructor|].
  destruct (parse_line line) as [[r|]|e] eqn:Hp; simpl; [| |done].
  - intros H. constructor; [|by apply IH].
    apply not_true_is_false. intros [e He]%parse_line_raises. congruence.
  - intros H. constructor; [|by apply IH].
    apply not_true_is_false. intros [e He]%parse_line_raises. congruence.
Qed.

Lemma read_raised lines e :
  (read lines).2 = Raised e ->
  exists before line after,
    lines = before ++ line :: after
    /\ Forall (fun l => bad_coordinates l = false) before
    /\ parse_line line = Raise e.
Proof.
  induction lines as [|line lines IH]; simpl; [done|].
  destruct (parse_line line) as [[r|]|e'] eqn:Hp; simpl.
  - intros (before & l & after & -> & Hb & Hl)%IH.
    exists (line :: before), l, after. split_and!; [done| |done].
    constructor; [|done].
    apply not_true_is_false. intros [e0 He]%parse_line_raises. congruence.
  - intros (before & l & after & -> & Hb & Hl)%IH.
    exists (line :: before), l, after. split_and!; [done| |done].
    constructor; [|done].
    apply not_true_is_false. intros [e0 He]%parse_line_raises. congruence.
  - intros [= ->]. exists [], line, lines. split_and!; [done|constructor|done].
Qed.

Lemma read_app before lines :
  Forall (fun l => bad_coordinates l = false) before ->
  read (before ++ lines) = (parsed_rows before ++ (read lines).1, (read lines).2).
Proof.
  unfold parsed_rows. induction 1 as [|l before Hl _ IH]; simpl.
  - by destruct (read lines).
  - unfold parsed. destruct (parse_line_accepts _ Hl) as [[r|] ->]; by rewrite IH.
Qed.

Lemma read_app_stop before lines e :
  (read before).2 = Raised e -> read (before ++ lines) = read before.
Proof.
  induction before as [|l before IH]; simpl; [done|].
  destruct (parse_line l) as [[r|]|e']; simpl; [|done..].
  intros H. by rewrite (IH H).
Qed.

Lemma parse_line_query line r :
  parse_line line = Ok (Some r) ->
  q_id r = (Py.split1 "|" (q_full r)).1
  /\ q_species r = default "" (Py.split1 "|" (q_full r)).2.
Proof.
  rewrite parse_line_unfold. destruct (_ <? 12)%nat; [done|].
  destruct (Py.int (field (fields line) 7)), (Py.int (field (fields line) 8));
    try done.
  by intros [= <-].
Qed.

Lemma adjacent_removelast {A} (R : A -> A -> Prop) l :
  adjacent R l -> adjacent R (removelast l).
Proof.
  destruct l as [|x l _] using rev_ind; [done|].
  rewrite removelast_last. by intros [? _]%adjacent_snoc.
Qed.

Lemma removelast_elem {A} (x : A) l : x ∈ removelast l -> x ∈ l.
Proof.
  destruct l as [|y l _] using rev_ind; [done|].
  rewrite removelast_last, elem_of_app. auto.
Qed.

Lemma runs_app rows1 rows2 a b :
  last rows1 = Some a -> head rows2 = Some b -> q_full a <> q_full b ->
  runs (rows1 ++ rows2) = runs rows1 ++ runs rows2.
Proof.
  intros Ha Hb Hne. induction rows1 as [|x rows1 IH]; [done|].
  destruct rows1 as [|y rows1].
  - simpl in Ha. injection Ha as ->.
    destruct rows2 as [|b' rows2]; [done|]. simpl in Hb. injection Hb as ->.
    rewrite (runs_uniform_app (q_full a) [a] (b :: rows2));
      [done|done|by repeat constructor|by intros ? [= <-]].
  - change ((x :: y :: rows1) ++ rows2) with (x :: ((y :: rows1) ++ rows2)).
    rewrite runs_unfold, IH by done.
    rewrite (runs_unfold x (y :: rows1)).
    destruct (runs_cons y rows1) as (g & bs & ->). simpl.
    by destruct (String.eqb _ _).
Qed.

Lemma removelast_cons {A} (a : A) l :
  l <> [] -> removelast (a :: l) = a :: removelast l.
Proof. by destruct l. Qed.

Lemma runs_app_prefix rows1 rows2 :
  rows1 <> [] ->
  exists k, k <> [] /\ runs (rows1 ++ rows2) = removelast (runs rows1) ++ k.
Proof.
  induction rows1 as [|x rows1 IH]; [done|]. intros _.
  destruct rows1 as [|y rows1].
  - exists (runs (x :: rows2)). split; [|done].
    by destruct (runs_cons x rows2) as (g & bs & ->).
  - destruct IH as (k & Hk & Heq); [done|].
    change ((x :: y :: rows1) ++ rows2) with (x :: ((y :: rows1) ++ rows2)).
    rewrite runs_unfold, (runs_unfold x (y :: rows1)).
    destruct (runs_cons y rows1) as (g & bs & Hr).
    destruct (runs_cons y (rows1 ++ rows2)) as (g' & bs' & Hr').
    change (y :: rows1 ++ rows2) with ((y :: rows1) ++ rows2) in Hr'.
    rewrite Hr in *. rewrite Hr' in *.
    destruct bs as [|b bs].
    + simpl in Heq. subst k.
      destruct (String.eqb _ _).
      * by exists ((q_full y, x :: y :: g') :: bs').
      * by exists ((q_full y, y :: g') :: bs').
    + rewrite removelast_cons in Heq by done.
      simpl in Heq. injection Heq as -> ->.
      exists k. split; [done|].
      destruct (String.eqb _ _); by rewrite !removelast_cons by done.
Qed.

Lemma removelast_prefix {A} (l : list A) : removelast l `prefix_of` l.
Proof.
  destruct l as [|x l _] using rev_ind; [done|].
  rewrite removelast_last. by exists [x].
Qed.

(** X7. [main] always writes the header first, and after it the lines of
    the yielded blocks, block by block: what is written for a block depends on
    that block alone and is appended to what was written before. *)
Theorem main_per_block
    (lines : list string) (max_gap : Z) (require_same_strand : bool) :
  (main lines max_gap require_same_strand).1
  = header :: concat (process_block max_gap require_same_strand []
                        <$> (blocks_by_query lines).1)
  /\ (forall out blk,
        process_block max_gap require_same_strand out blk
        = out ++ process_block max_gap require_same_strand [] blk).
Proof.
  split; [|intros; apply process_block_out].
  unfold main. destruct (blocks_by_query lines) as [blocks e]. simpl.
  by rewrite fold_process_block.
Qed.

(** X8. A line with fewer than twelve fields, a blank line among them, is
    skipped without a trace: [parse_line] returns [None], and the blocks and
    the output are those of the input without the line. *)
Theorem short_line_no_trace
    (before : list string) (line : string) (after : list string)
    (max_gap : Z) (require_same_strand : bool) :
  (length (fields line) < 12)%nat ->
  parse_line line = Ok None
  /\ blocks_by_query (before ++ line :: after) = blocks_by_query (before ++ after)
  /\ main (before ++ line :: after) max_gap require_same_strand
     = main (before ++ after) max_gap require_same_strand.
Proof.
  intros Hlen. split_and!; [by apply parse_line_short|by apply short_line_skipped|].
  unfold main. by rewrite short_line_skipped.
Qed.

Lemma short_line_no_trace_witness :
  parse_line short_line = Ok None
  /\ blocks_by_query ([line1] ++ short_line :: [line2])
     = blocks_by_query ([line1] ++ [line2])
  /\ main ([line1] ++ short_line :: [line2]) 50 false
     = main ([line1] ++ [line2]) 50 false.
Proof. apply short_line_no_trace. vm_compute. lia. Defined.

(** X9. [blocks_by_query] ends normally exactly when no line has twelve
    fields or more with a column 8 or 9 that [int] rejects (no decimal
    literal, or one of more than 4300 digits); when it ends with
    an error, the error is the one [parse_line] raises on the first such
    line. *)
Theorem blocks_by_query_ends (lines : list string) :
  ((blocks_by_query lines).2 = Exhausted
   <-> Forall (fun l => bad_coordinates l = false) lines)
  /\ (forall e, (blocks_by_query lines).2 = Raised e ->
        exists before line after,
          lines = before ++ line :: after
          /\ Forall (fun l => bad_coordinates l = false) before
          /\ parse_line line = Raise e).
Proof.
  rewrite blocks_by_query_read. simpl. split.
  - split; [apply read_exhausted|]. intros H. by rewrite (read_ok _ H).
  - apply read_raised.
Qed.

Lemma blocks_by_query_ends_witness :
  exists before line after,
    [line1; bad_line; line2] = before ++ line :: after
    /\ Forall (fun l => bad_coordinates l = false) before
    /\ parse_line line = Raise (ValueError "3e2").
Proof.
  destruct (blocks_by_query_ends [line1; bad_line; line2]) as [_ H].
  apply H. reflexivity.
Defined.

(** X10. On every input, with or without an error, each block that
    [blocks_by_query] yields is non-empty, its rows all have the block's key
    as [q_full] and the [q_id] and [q_species] of its first row, and two
    blocks in a row have different keys.  So the test for an empty block in
    [main] never fires, and the query id [main] takes from the first row is
    that of the whole block. *)
Theorem blocks_well_formed (lines : list string) :
  Forall (fun b : Block =>
            exists r0 rest,
              b.2 = r0 :: rest
              /\ Forall (fun r => q_full r = b.1 /\ q_id r = q_id r0
                                  /\ q_species r = q_species r0) b.2)
         (blocks_by_query lines).1
  /\ adjacent (fun b1 b2 : Block => b1.1 <> b2.1) (blocks_by_query lines).1.
Proof.
  rewrite blocks_by_query_read. simpl. split.
  - apply Forall_forall. intros [q rows] Hb%handed_out_elem.
    pose proof (runs_uniform (read lines).1) as Hu.
    rewrite Forall_forall in Hu. destruct (Hu _ Hb) as [Hne Hk]. simpl in *.
    destruct rows as [|r0 rest]; [done|]. exists r0, rest. split; [done|].
    assert (forall r, r ∈ r0 :: rest ->
              q_id r = (Py.split1 "|" q).1
              /\ q_species r = default "" (Py.split1 "|" q).2) as Hq.
    { intros r Hr. rewrite Forall_forall in Hk. rewrite <- (Hk r Hr).
      destruct (read_rows_parsed lines r) as (line & _ & Hline).
      { by eapply runs_elem. }
      by eapply parse_line_query. }
    apply Forall_forall. intros r Hr. rewrite Forall_forall in Hk.
    destruct (Hq r Hr) as [-> ->]. destruct (Hq r0 ltac:(left)) as [-> ->].
    split_and!; [by apply Hk|done..].
  - pose proof (runs_adjacent (read lines).1) as Hadj.
    destruct (read lines).2; [done|]. by apply adjacent_removelast.
Qed.

(** X11. A block without a self row, and a block with self rows only,
    writes nothing. *)
Theorem block_without_partner_silent
    (max_gap : Z) (require_same_strand : bool) (out : list string)
    (q : string) (r0 : GeneRecord) (rows : list GeneRecord) :
  Forall (fun r => prot_id r <> q_id r0) (r0 :: rows)
  \/ Forall (fun r => prot_id r = q_id r0) (r0 :: rows) ->
  process_block max_gap require_same_strand out (q, r0 :: rows) = out.
Proof.
  intros Hrows. unfold process_block.
  destruct (fold_write_operon_records q r0
              (build_operons (r0 :: rows) max_gap require_same_strand) out)
    as (recs & -> & Hrecs).
  assert (filter (qualifying (q_id r0))
                 (build_operons (r0 :: rows) max_gap require_same_strand) = [])
    as Hnone.
  { destruct (filter _ _) as [|op ops] eqn:Hf; [done|].
    assert (op ∈ filter (qualifying (q_id r0))
                   (build_operons (r0 :: rows) max_gap require_same_strand))
      as [[Hself Hother] Hop]%list_elem_of_filter by (rewrite Hf; left).
    apply Exists_exists in Hself as (x & Hx & Hxid).
    apply Exists_exists in Hother as (y & Hy & Hyid).
    rewrite !Forall_forall in Hrows. destruct Hrows as [Hall|Hall].
    - destruct (Hall x); [|done]. by eapply cluster_member.
    - destruct Hyid. apply Hall. by eapply cluster_member. }
  rewrite Hnone in Hrecs. apply Forall2_nil_inv_l in Hrecs as ->.
  by rewrite app_nil_r.
Qed.

Lemma block_without_partner_silent_witness :
  process_block 50 false [header] ("Q1#1|E_coli", [row1; row3]) = [header].
Proof.
  apply block_without_partner_silent. left.
  by repeat (constructor; [by vm_compute|]).
Defined.

Lemma filter_concat_length {A} (Q : list A -> Prop) (P : A -> Prop)
    `{!forall c, Decision (Q c)} `{!forall x, Decision (P x)} (cs : list (list A)) :
  (forall c, Q c -> Exists P c) ->
  (length (filter Q cs) <= length (filter P (concat cs)))%nat.
Proof.
  intros HQ. induction cs as [|c cs IH]; simpl; [done|].
  rewrite filter_cons, filter_app, length_app.
  destruct (decide (Q c)) as [Hc|]; [|lia]. simpl.
  apply HQ, Exists_exists in Hc as (x & Hx & HP).
  assert (x ∈ filter P c) as Hin by (by apply list_elem_of_filter).
  destruct (filter P c); [by apply elem_of_nil in Hin|]. simpl. lia.
Qed.

Lemma filter_length_perm {A} (P : A -> Prop) `{!forall x, Decision (P x)}
    (l l' : list A) :
  l ≡ₚ l' -> length (filter P l) = length (filter P l').
Proof. by intros ->. Qed.

Lemma read_no_rows lines :
  Forall (fun l => (length (fields l) < 12)%nat) lines ->
  read lines = ([], Exhausted).
Proof.
  induction 1 as [|l lines Hl _ IH]; simpl; [done|].
  by rewrite (parse_line_short _ Hl).
Qed.

Lemma handed_out_app e (bs1 bs2 : list Block) :
  bs2 <> [] -> handed_out e (bs1 ++ bs2) = bs1 ++ handed_out e bs2.
Proof. intros Hne. destruct e; [done|]. simpl. by apply removelast_app. Qed.

(** X12. A block writes at most as many lines as it has self rows, and at
    most as many as it has rows of other proteins. *)
Theorem block_lines_bound
    (max_gap : Z) (require_same_strand : bool)
    (q : string) (r0 : GeneRecord) (rows : list GeneRecord) :
  (length (process_block max_gap require_same_strand [] (q, r0 :: rows))
   <= length (filter (fun r => prot_id r = q_id r0) (r0 :: rows)))%nat
  /\ (length (process_block max_gap require_same_strand [] (q, r0 :: rows))
      <= length (filter (fun r => prot_id r <> q_id r0) (r0 :: rows)))%nat.
Proof.
  unfold process_block.
  destruct (fold_write_operon_records q r0
              (build_operons (r0 :: rows) max_gap require_same_strand) [])
    as (recs & -> & Hrecs).
  apply Forall2_length in Hrecs. simpl. rewrite length_fmap, <- Hrecs.
  pose proof (build_operons_facts (r0 :: rows) max_gap require_same_strand) as H.
  cbv zeta in H. destruct H as (_ & _ & _ & Hcat).
  pose proof (rows_sorted_perm (r0 :: rows)) as Hp. rewrite <- Hcat in Hp.
  split.
  - rewrite <- (filter_length_perm _ _ _ Hp).
    apply filter_concat_length. by intros c [? _].
  - rewrite <- (filter_length_perm _ _ _ Hp).
    apply filter_concat_length. by intros c [_ ?].
Qed.

(** X13. Input without a line of twelve fields or more, the empty input
    among them, gives no block and an output of the header alone. *)
Theorem main_no_rows
    (lines : list string) (max_gap : Z) (require_same_strand : bool) :
  Forall (fun l => (length (fields l) < 12)%nat) lines ->
  blocks_by_query lines = ([], Exhausted)
  /\ main lines max_gap require_same_strand = ([header], Exhausted).
Proof.
  intros H. unfold main. by rewrite blocks_by_query_read, (read_no_rows _ H).
Qed.

Lemma main_no_rows_witness :
  blocks_by_query [nl; short_line; ""] = ([], Exhausted)
  /\ main [nl; short_line; ""] 50 false = ([header], Exhausted).
Proof.
  apply main_no_rows. repeat (constructor; [vm_compute; lia|]). constructor.
Defined.

(** X14. Two inputs one after the other, the first without error and its
    last row with another [q_full] than the first row of the second: the
    blocks are those of the first followed by those of the second, and the
    output is that of the first followed by that of the second without its
    header. *)
Theorem blocks_by_query_app
    (lines1 lines2 : list string) (a b : GeneRecord)
    (max_gap : Z) (require_same_strand : bool) :
  Forall (fun l => bad_coordinates l = false) lines1 ->
  last (parsed_rows lines1) = Some a ->
  head (read lines2).1 = Some b ->
  q_full a <> q_full b ->
  blocks_by_query (lines1 ++ lines2)
  = ((blocks_by_query lines1).1 ++ (blocks_by_query lines2).1,
     (blocks_by_query lines2).2)
  /\ main (lines1 ++ lines2) max_gap require_same_strand
     = ((main lines1 max_gap require_same_strand).1
          ++ tail (main lines2 max_gap require_same_strand).1,
        (main lines2 max_gap require_same_strand).2).
Proof.
  intros Hok Ha Hb Hne.
  assert (blocks_by_query (lines1 ++ lines2)
          = ((blocks_by_query lines1).1 ++ (blocks_by_query lines2).1,
             (blocks_by_query lines2).2)) as Hblocks.
  { rewrite !blocks_by_query_read, (read_app _ _ Hok), (read_ok _ Hok). simpl.
    rewrite (runs_app _ _ a b) by done.
    rewrite handed_out_app; [done|].
    destruct (read lines2).1 as [|r rows]; [done|].
    by destruct (runs_cons r rows) as (g & bs & ->). }
  split; [done|].
  unfold main. rewrite Hblocks.
  destruct (blocks_by_query lines1) as [bs1 e1].
  destruct (blocks_by_query lines2) as [bs2 e2]. simpl.
  rewrite !fold_process_block. simpl.
  by rewrite fmap_app, concat_app.
Qed.

Lemma blocks_by_query_app_witness :
  blocks_by_query ([line1; line2] ++ [line6; bad_line])
  = ((blocks_by_query [line1; line2]).1 ++ (blocks_by_query [line6; bad_line]).1,
     (blocks_by_query [line6; bad_line]).2)
  /\ main ([line1; line2] ++ [line6; bad_line]) 50 false
     = ((main [line1; line2] 50 false).1
          ++ tail (main [line6; bad_line] 50 false).1,
        (main [line6; bad_line] 50 false).2).
Proof.
  apply (blocks_by_query_app [line1; line2] [line6; bad_line] row2 row6).
  - repeat (constructor; [reflexivity|]). constructor.
  - reflexivity.
  - reflexivity.
  - by vm_compute.
Defined.

(** X15. A block, once yielded, stays: whatever lines follow, the blocks
    completed on an input are the first blocks yielded on the longer input.
    Only the last block of the shorter input, which was yielded at its end,
    may still grow or be lost to an error. *)
Theorem yielded_blocks_stay (lines1 lines2 : list string) :
  removelast (blocks_by_query lines1).1
  `prefix_of` (blocks_by_query (lines1 ++ lines2)).1.
Proof.
  rewrite !blocks_by_query_read. simpl.
  destruct (read lines1).2 as [|e] eqn:He.
  - apply read_exhausted in He as Hok.
    rewrite (read_app _ _ Hok), (read_ok _ Hok). simpl.
    destruct (parsed_rows lines1) as [|r rows] eqn:Hrows.
    { by exists (handed_out (read lines2).2 (runs ([] ++ (read lines2).1))). }
    destruct (runs_app_prefix (r :: rows) (read lines2).1) as (k & Hk & ->);
      [done|].
    rewrite handed_out_app by done. by eexists.
  - rewrite (read_app_stop _ _ _ He), He. simpl.
    apply removelast_prefix.
Qed.

(** ** The parser, field by field *)

Lemma split1_spec sep s :
  count_char sep (Py.split1 sep s).1 = 0%nat
  /\ match (Py.split1 sep s).2 with
     | None => (Py.split1 sep s).1 = s
     | Some t => s = (Py.split1 sep s).1 +:+ String sep t
     end.
Proof.
  induction s as [|c s [IH1 IH2]]; simpl; [done|].
  destruct (Ascii.eqb_spec c sep) as [->|Hne]; simpl; [done|].
  destruct (Py.split1 sep s) as [h [t|]]; simpl in *.
  - destruct (Ascii.eqb_spec c sep); [done|]. split; [done|]. by rewrite IH2 at 1.
  - destruct (Ascii.eqb_spec c sep); [done|]. split; [done|]. by rewrite IH2.
Qed.

(** X16. In a parsed row, [q_id] has no bar, and [q_full] is [q_id] alone
    (with an empty [q_species]) when it has no bar, and otherwise [q_id], a
    bar and [q_species]: the split is at the first bar and loses nothing. *)
Theorem parse_line_query_parts (line : string) (r : GeneRecord) :
  parse_line line = Ok (Some r) ->
  count_char "|" (q_id r) = 0%nat
  /\ ((count_char "|" (q_full r) = 0%nat /\ q_id r = q_full r /\ q_species r = "")
      \/ q_full r = q_id r +:+ "|" +:+ q_species r).
Proof.
  intros [Hid Hsp]%parse_line_query.
  destruct (split1_spec "|" (q_full r)) as [Hcount Hsplit].
  rewrite Hid, Hsp. split; [done|].
  destruct (Py.split1 "|" (q_full r)).2 as [t|]; simpl.
  - by right.
  - left. by rewrite <- Hsplit at 1.
Qed.

Lemma parse_line_query_parts_witness :
  count_char "|" (q_id row1) = 0%nat
  /\ ((count_char "|" (q_full row1) = 0%nat /\ q_id row1 = q_full row1
       /\ q_species row1 = "")
      \/ q_full row1 = q_id row1 +:+ "|" +:+ q_species row1).
Proof. apply (parse_line_query_parts line1). reflexivity. Defined.

(** X17. [parse_line] reads columns 1, 4 and 8 to 12 only: two lines with
    twelve fields or more that agree on these columns give the same result,
    whatever their other columns and however many more fields they have. *)
Theorem parse_line_columns (line line' : string) :
  (12 <= length (fields line))%nat ->
  (12 <= length (fields line'))%nat ->
  Forall (fun i => field (fields line) i = field (fields line') i)
         [0; 3; 7; 8; 9; 10; 11]%nat ->
  parse_line line = parse_line line'.
Proof.
  intros Hlen Hlen' Hcols. rewrite !parse_line_unfold.
  destruct (Nat.ltb_spec (length (fields line)) 12); [lia|].
  destruct (Nat.ltb_spec (length (fields line')) 12); [lia|].
  repeat (apply Forall_cons in Hcols as [-> Hcols]). done.
Qed.

Lemma parse_line_columns_witness : parse_line line1 = parse_line line1'.
Proof.
  apply parse_line_columns; [vm_compute; lia|vm_compute; lia|].
  repeat (constructor; [by vm_compute|]). constructor.
Defined.

(** ** The tokenizer *)

#[local] Arguments append !_ _ / : simpl nomatch.

Lemma string_app_nil_r s : s +:+ "" = s.
Proof. induction s as [|c s IH]; simpl; [done|]. by f_equal. Qed.

Lemma string_app_assoc a b c : (a +:+ b) +:+ c = a +:+ (b +:+ c).
Proof. induction a as [|x a IH]; simpl; [done|]. by f_equal. Qed.

Lemma rev_app_app a b c :
  String.rev_app (a +:+ b) c = String.rev_app b (String.rev_app a c).
Proof. revert c. induction a as [|x a IH]; intros c; simpl; [done|]. apply IH. Qed.

Lemma rev_app_rev_app a b c :
  String.rev_app (String.rev_app a b) c = String.rev_app b (a +:+ c).
Proof.
  revert b c. induction a as [|x a IH]; intros b c; simpl; [done|].
  by rewrite IH.
Qed.

Lemma rev_app_append a c : String.rev_app a c = String.rev a +:+ c.
Proof.
  unfold String.rev. revert c. induction a as [|x a IH]; intros c; simpl; [done|].
  rewrite IH, (IH (String x "")). by rewrite string_app_assoc.
Qed.

Lemma rev_rev s : String.rev (String.rev s) = s.
Proof. unfold String.rev. by rewrite rev_app_rev_app, string_app_nil_r. Qed.

Lemma no_space_app a b : no_space (a +:+ b) = no_space a && no_space b.
Proof.
  induction a as [|x a IH]; simpl; [done|]. by rewrite IH, andb_assoc.
Qed.

Lemma all_space_app a b : all_space (a +:+ b) = all_space a && all_space b.
Proof.
  induction a as [|x a IH]; simpl; [done|]. by rewrite IH, andb_assoc.
Qed.

Lemma no_space_rev_app a b :
  no_space (String.rev_app a b) = no_space a && no_space b.
Proof.
  revert b. induction a as [|x a IH]; intros b; simpl; [done|].
  rewrite IH. simpl. by destruct (Py.isspace x), (no_space a).
Qed.

Lemma all_space_rev_app a b :
  all_space (String.rev_app a b) = all_space a && all_space b.
Proof.
  revert b. induction a as [|x a IH]; intros b; simpl; [done|].
  rewrite IH. simpl. by destruct (Py.isspace x), (all_space a).
Qed.

Lemma rev_app_not_empty a b : b <> "" -> String.rev_app a b <> "".
Proof. revert b. induction a as [|x a IH]; intros b Hb; simpl; [done|]. by apply IH. Qed.

Lemma lstrip_split s :
  exists ws, all_space ws = true /\ s = ws +:+ Py.lstrip s.
Proof.
  induction s as [|c s (ws & Hws & IH)]; [by exists ""|]. simpl.
  destruct (Py.isspace c) eqn:Hc.
  - exists (String c ws). simpl. rewrite Hc, Hws. split; [done|]. by rewrite IH at 1.
  - by exists "".
Qed.

(** [strip] takes whitespace off the two ends, and nothing else. *)
Lemma strip_split s :
  exists ws1 ws2,
    all_space ws1 = true /\ all_space ws2 = true
    /\ s = ws1 +:+ Py.strip s +:+ ws2.
Proof.
  unfold Py.strip.
  destruct (lstrip_split s) as (ws1 & Hws1 & Hs).
  destruct (lstrip_split (String.rev (Py.lstrip s))) as (ws & Hws & Hrev).
  exists ws1, (String.rev ws). split_and!; [done| |].
  - unfold String.rev. by rewrite all_space_rev_app, Hws.
  - rewrite Hs at 1. f_equal.
    rewrite <- (rev_rev (Py.lstrip s)) at 1. rewrite Hrev at 1.
    unfold String.rev at 1. rewrite rev_app_app.
    by rewrite rev_app_append.
Qed.

Lemma split_go_all_space b w :
  all_space b = true -> Py.split_go b w = Py.split_go "" w.
Proof.
  revert w. induction b as [|c b IH]; intros w; simpl; [done|].
  intros [Hc Hb]%andb_true_iff. rewrite Hc.
  destruct w; by rewrite IH.
Qed.

Lemma split_go_trail a b w :
  all_space b = true -> Py.split_go (a +:+ b) w = Py.split_go a w.
Proof.
  intros Hb. revert w. induction a as [|c a IH]; intros w; simpl.
  - by apply split_go_all_space.
  - destruct (Py.isspace c); [|by apply IH]. destruct w; by rewrite IH.
Qed.

Lemma split_go_lead ws s :
  all_space ws = true -> Py.split_go (ws +:+ s) "" = Py.split_go s "".
Proof.
  induction ws as [|c ws IH]; simpl; [done|].
  intros [Hc Hws]%andb_true_iff. rewrite Hc. by apply IH.
Qed.

(** [s.strip().split()] is [s.split()]. *)
Lemma split_strip s : Py.split (Py.strip s) = Py.split s.
Proof.
  destruct (strip_split s) as (ws1 & ws2 & H1 & H2 & Hs).
  unfold Py.split. rewrite Hs at 2.
  by rewrite split_go_lead, split_go_trail.
Qed.

Lemma split_go_nil w :
  Py.split_go "" w = match w with EmptyString => [] | _ => [String.rev w] end.
Proof. done. Qed.

Lemma split_go_cons c s w :
  Py.split_go (String c s) w =
  if Py.isspace c
  then match w with
       | EmptyString => Py.split_go s ""
       | _ => String.rev w :: Py.split_go s ""
       end
  else Py.split_go s (String c w).
Proof. done. Qed.

Lemma rev_token w : w <> "" -> no_space w = true -> token (String.rev w).
Proof.
  intros Hne Hw. unfold String.rev. split.
  - destruct w as [|x w]; [done|].
    change (String.rev_app (String x w) "") with (String.rev_app w (String x "")).
    by apply rev_app_not_empty.
  - by rewrite no_space_rev_app, Hw.
Qed.

Lemma split_go_tokens s w :
  no_space w = true -> Forall token (Py.split_go s w).
Proof.
  revert w. induction s as [|c s IH]; intros w Hw.
  - rewrite split_go_nil. destruct w as [|x w']; [constructor|].
    constructor; [|constructor]. by apply rev_token.
  - rewrite split_go_cons. destruct (Py.isspace c) eqn:Hc.
    + destruct w as [|x w']; [by apply IH|].
      constructor; [|by apply IH]. by apply rev_token.
    + apply IH. simpl. by rewrite Hc, Hw.
Qed.

Lemma split_go_token t rest w :
  no_space t = true ->
  Py.split_go (t +:+ rest) w = Py.split_go rest (String.rev_app t w).
Proof.
  revert w. induction t as [|c t IH]; intros w; simpl; [done|].
  intros [Hc Ht]%andb_true_iff. apply negb_true_iff in Hc. rewrite Hc.
  by apply IH.
Qed.

Lemma split_join toks :
  Forall token toks -> Py.split (Py.join " " toks) = toks.
Proof.
  unfold Py.split. induction 1 as [|t toks [Hne Ht] Htoks IH]; [done|].
  assert (String.rev (String.rev_app t "") = t) as Hrev by apply rev_rev.
  assert (String.rev_app t "" <> "") as Hw.
  { intros Hw. rewrite Hw in Hrev. by subst t. }
  destruct toks as [|t' toks].
  - change (Py.join " " [t]) with t. rewrite <- (string_app_nil_r t) at 1.
    rewrite split_go_token, split_go_nil by done.
    destruct (String.rev_app t "") eqn:Hr; [done|]. by rewrite Hrev.
  - change (Py.join " " (t :: t' :: toks))
      with (t +:+ String " " (Py.join " " (t' :: toks))).
    rewrite split_go_token, split_go_cons by done.
    change (Py.isspace " ") with true. cbv iota.
    destruct (String.rev_app t "") eqn:Hr; [done|]. by rewrite Hrev, IH.
Qed.

(** X18. The fields of a line are never empty and have no whitespace; a
    list of such strings joined with single blanks, with or without the
    newline, has these strings as its fields; so writing the fields of a line
    with single blanks between them gives a line that [parse_line] reads as
    the original one. *)
Theorem fields_join :
  (forall line, Forall token (fields line))
  /\ (forall toks, Forall token toks ->
        fields (Py.join " " toks) = toks
        /\ fields (Py.join " " toks +:+ nl) = toks)
  /\ (forall line, fields (Py.join " " (fields line)) = fields line
                   /\ parse_line (Py.join " " (fields line)) = parse_line line).
Proof.
  assert (forall line, Forall token (fields line)) as Htok.
  { intros line. by apply split_go_tokens. }
  assert (forall toks, Forall token toks -> fields (Py.join " " toks) = toks)
    as Hjoin.
  { intros toks H. unfold fields. by rewrite split_strip, split_join. }
  split_and!; [done| |].
  - intros toks H. split; [by apply Hjoin|].
    unfold fields. rewrite split_strip. unfold Py.split.
    rewrite split_go_trail by done. by apply split_join.
  - intros line. split; [by apply Hjoin|].
    by rewrite !parse_line_unfold, Hjoin.
Qed.

Lemma fields_join_witness :
  fields (Py.join " " ["a"; "b|c"; "12"]) = ["a"; "b|c"; "12"]
  /\ fields (Py.join " " ["a"; "b|c"; "12"] +:+ nl) = ["a"; "b|c"; "12"].
Proof.
  destruct fields_join as (_ & H & _). apply H.
  repeat (constructor; [by split|]). constructor.
Defined.

(** ** Numbers in and out *)

Lemma int_unfold s :
  Py.int s =
  match
    match s with
    | String c s' =>
        if Ascii.eqb c "+" then Py.int_digits s' 0 false
        else if Ascii.eqb c "-" then Z.opp <$> Py.int_digits s' 0 false
             else Py.int_digits s 0 false
    | EmptyString => Py.int_digits s 0 false
    end
  with
  | Some z =>
      if (Py.int_max_str_digits <? Py.count_digits s)%N
      then Raise (ValueError s) else Ok z
  | None => Raise (ValueError s)
  end.
Proof.
  destruct s as [|c s']; [done|].
  by destruct c as [[] [] [] [] [] [] [] []].
Qed.

Lemma pretty_char_digit d :
  (d < 10)%N ->
  Py.isdigit (pretty_N_char d) = true
  /\ Py.digit_val (pretty_N_char d) = Z.of_N d.
Proof.
  intros Hd.
  assert (d = 0 \/ d = 1 \/ d = 2 \/ d = 3 \/ d = 4 \/ d = 5 \/ d = 6
          \/ d = 7 \/ d = 8 \/ d = 9)%N as Hcases by lia.
  destruct_or!; subst d; by vm_compute.
Qed.

Lemma digit_not_sign c :
  Py.isdigit c = true -> Ascii.eqb c "+" = false /\ Ascii.eqb c "-" = false.
Proof. by destruct c as [[] [] [] [] [] [] [] []]. Qed.

Lemma digit_val_range c : Py.isdigit c = true -> 0 <= Py.digit_val c <= 9.
Proof.
  unfold Py.isdigit, Py.digit_val.
  intros [H1 H2]%andb_true_iff. apply N.leb_le in H1, H2. lia.
Qed.

Lemma int_digits_pretty x s :
  Py.int_digits (pretty_N_go x s) 0 false
  = if decide (x = 0)%N then Py.int_digits s 0 false
    else Py.int_digits s (Z.of_N x) true.
Proof.
  revert s. induction (N.lt_wf_0 x) as [x _ IH]; intros s.
  destruct (decide (x = 0)%N) as [->|Hx]; [by rewrite pretty_N_go_0|].
  rewrite pretty_N_go_step by lia. rewrite IH by (apply N.div_lt; lia).
  destruct (pretty_char_digit (x `mod` 10)) as [Hd Hv]; [by apply N.mod_lt|].
  pose proof (N.div_mod x 10 ltac:(done)) as Hdm.
  pose proof (N.mod_lt x 10 ltac:(done)) as Hlt.
  destruct (decide (x `div` 10 = 0)%N) as [Hq|Hq]; simpl; rewrite Hd, Hv;
    f_equal; lia.
Qed.

Lemma pretty_go_head x s :
  (0 < x)%N ->
  exists c rest, pretty_N_go x s = String c rest /\ Py.isdigit c = true.
Proof.
  revert s. induction (N.lt_wf_0 x) as [x _ IH]; intros s Hx.
  rewrite pretty_N_go_step by done.
  destruct (decide (x `div` 10 = 0)%N) as [->|Hq].
  - rewrite pretty_N_go_0. eexists _, _. split; [done|].
    apply pretty_char_digit. by apply N.mod_lt.
  - apply IH; [by apply N.div_lt|by apply N.neq_0_lt_0].
Qed.

(** The value of a literal with [n] digits is below [10 ^ n]. *)
Lemma int_digits_bound s acc b z :
  0 <= acc -> Py.int_digits s acc b = Some z ->
  0 <= z < (acc + 1) * 10 ^ Z.of_N (Py.count_digits s).
Proof.
  revert acc b. induction s as [|c s IH]; intros acc b Hacc; simpl.
  - destruct b; [|done]. intros [= <-]. lia.
  - destruct (Py.isdigit c) eqn:Hc.
    + intros H. pose proof (digit_val_range c Hc) as Hd.
      apply IH in H; [|lia].
      rewrite N2Z.inj_add, Z.pow_add_r, Z.pow_1_r by lia.
      assert (0 < 10 ^ Z.of_N (Py.count_digits s)) by (apply Z.pow_pos_nonneg; lia).
      nia.
    + destruct (Ascii.eqb c "_"); [|done]. destruct b; [|done].
      intros H. apply IH in H; [|done]. by rewrite N.add_0_l.
Qed.

Lemma int_bound s z :
  Py.int s = Ok z ->
  Z.abs z < 10 ^ Z.of_N (Py.count_digits s)
  /\ (Py.count_digits s <= Py.int_max_str_digits)%N.
Proof.
  rewrite int_unfold.
  destruct s as [|c s'].
  { by simpl. }
  assert (forall t z',
            Py.int_digits t 0 false = Some z' ->
            Z.abs z' < 10 ^ Z.of_N (Py.count_digits t)) as Hb.
  { intros t z' H. apply int_digits_bound in H; [|done]. lia. }
  destruct (Ascii.eqb_spec c "+") as [->|Hplus].
  { change (Py.count_digits (String "+" s')) with (Py.count_digits s').
    destruct (Py.int_digits s' 0 false) as [z'|] eqn:Hd; [|done].
    destruct (N.ltb_spec Py.int_max_str_digits (Py.count_digits s')); [done|].
    intros [= <-]. split; [|done]. by apply Hb. }
  destruct (Ascii.eqb_spec c "-") as [->|Hminus].
  { change (Py.count_digits (String "-" s')) with (Py.count_digits s').
    destruct (Py.int_digits s' 0 false) as [z'|] eqn:Hd; [|done]. simpl.
    destruct (N.ltb_spec Py.int_max_str_digits (Py.count_digits s')); [done|].
    intros [= <-]. split; [|done]. rewrite Z.abs_opp. by apply Hb. }
  destruct (Py.int_digits (String c s') 0 false) as [z'|] eqn:Hd; [|done].
  destruct (N.ltb_spec Py.int_max_str_digits (Py.count_digits (String c s')));
    [done|].
  intros [= <-]. split; [|done]. by apply Hb.
Qed.

Lemma count_digits_pretty_go n x s :
  (x < 10 ^ n)%N ->
  (Py.count_digits (pretty_N_go x s) <= n + Py.count_digits s)%N.
Proof.
  revert x s. induction n as [|n IH] using N.peano_ind; intros x s Hx.
  - assert (x = 0)%N as -> by (simpl in Hx; lia). by rewrite pretty_N_go_0.
  - destruct (decide (x = 0)%N) as [->|Hne]; [rewrite pretty_N_go_0; lia|].
    rewrite pretty_N_go_step by lia.
    rewrite N.pow_succ_r' in Hx.
    etrans; [apply IH; by apply N.Div0.div_lt_upper_bound|].
    simpl. destruct (Py.isdigit _); lia.
Qed.

Lemma str_int_back z n :
  Z.abs z < 10 ^ Z.of_N n -> (n <= Py.int_max_str_digits)%N ->
  (Py.count_digits (Py.str z) <= Py.int_max_str_digits)%N
  /\ Py.int (Py.str z) = Ok z.
Proof.
  intros Hz Hn.
  assert (forall p, Z.pos p < 10 ^ Z.of_N n ->
            (Py.count_digits (pretty_N_go (N.pos p) "") <= Py.int_max_str_digits)%N)
    as Hcount.
  { intros p Hp. etrans; [apply (count_digits_pretty_go n)|simpl; lia].
    apply N2Z.inj_lt. by rewrite N2Z.inj_pow. }
  destruct z as [|p|p].
  - by vm_compute.
  - specialize (Hcount p Hz).
    change (Py.str (Z.pos p)) with (pretty_N_go (N.pos p) "").
    split; [done|]. rewrite int_unfold.
    destruct (pretty_go_head (N.pos p) "") as (c & rest & Heq & Hc); [done|].
    destruct (digit_not_sign c Hc) as [Hplus Hminus].
    rewrite Heq, Hplus, Hminus, <- Heq, int_digits_pretty.
    destruct (decide (N.pos p = 0)%N); [done|]. simpl.
    by destruct (N.ltb_spec Py.int_max_str_digits
                   (Py.count_digits (pretty_N_go (N.pos p) ""))); [lia|].
  - specialize (Hcount p Hz).
    change (Py.str (Z.neg p)) with (String "-" (pretty_N_go (N.pos p) "")).
    assert (Py.count_digits (String "-" (pretty_N_go (N.pos p) ""))
            = Py.count_digits (pretty_N_go (N.pos p) "")) as Hsame by done.
    split; [by rewrite Hsame|]. rewrite int_unfold, Hsame.
    change (Ascii.eqb "-" "+") with false.
    change (Ascii.eqb "-" "-") with true. cbv iota.
    rewrite int_digits_pretty, decide_False by done. simpl.
    by destruct (N.ltb_spec Py.int_max_str_digits
                   (Py.count_digits (pretty_N_go (N.pos p) ""))); [lia|].
Qed.

Lemma int_str_back s z :
  Py.int s = Ok z ->
  (Py.count_digits (Py.str z) <= Py.int_max_str_digits)%N
  /\ Py.int (Py.str z) = Ok z.
Proof. intros [Hz Hn]%int_bound. by eapply str_int_back. Qed.

(** X19. Every coordinate of a parsed row, and so of every member of every
    cluster of a yielded block, is an integer of at most 4300 digits, within
    the limit of [str], and the text [str] gives for it is read back by [int]
    as the same number: the coordinates in the output are in the form the
    input takes. *)
Theorem coordinates_parse_back :
  (forall line r,
      parse_line line = Ok (Some r) ->
      (Py.count_digits (Py.str (start r)) <= Py.int_max_str_digits)%N
      /\ (Py.count_digits (Py.str (stop r)) <= Py.int_max_str_digits)%N
      /\ Py.int (Py.str (start r)) = Ok (start r)
      /\ Py.int (Py.str (stop r)) = Ok (stop r))
  /\ (forall lines max_gap require_same_strand q rows c m,
         (q, rows) ∈ (blocks_by_query lines).1 ->
         c ∈ build_operons rows max_gap require_same_strand ->
         m ∈ c ->
         Py.int (Py.str (start m)) = Ok (start m)
         /\ Py.int (Py.str (stop m)) = Ok (stop m)).
Proof.
  assert (forall line r,
      parse_line line = Ok (Some r) ->
      (Py.count_digits (Py.str (start r)) <= Py.int_max_str_digits)%N
      /\ (Py.count_digits (Py.str (stop r)) <= Py.int_max_str_digits)%N
      /\ Py.int (Py.str (start r)) = Ok (start r)
      /\ Py.int (Py.str (stop r)) = Ok (stop r)) as Hrow.
  { intros line r. rewrite parse_line_unfold.
    destruct (_ <? 12)%nat; [done|].
    destruct (Py.int (field (fields line) 7)) as [a|] eqn:Ha; [|done].
    destruct (Py.int (field (fields line) 8)) as [b|] eqn:Hb; [|done].
    intros [= <-]. simpl.
    destruct (int_str_back _ _ Ha) as [Ha1 Ha2].
    destruct (int_str_back _ _ Hb) as [Hb1 Hb2].
    destruct (Z.min_spec a b) as [[_ ->]|[_ ->]];
      destruct (Z.max_spec a b) as [[_ ->]|[_ ->]]; done. }
  split; [done|].
  intros lines max_gap rss q rows c m Hblk Hc Hm.
  rewrite blocks_by_query_read in Hblk. simpl in Hblk.
  apply handed_out_elem in Hblk.
  destruct (read_rows_parsed lines m) as (line & _ & Hline).
  { eapply runs_elem; [done|]. by eapply cluster_member. }
  by destruct (Hrow _ _ Hline) as (_ & _ & ? & ?).
Qed.

Lemma coordinates_parse_back_witness :
  Py.int (Py.str (start row2)) = Ok (start row2)
  /\ Py.int (Py.str (stop row2)) = Ok (stop row2).
Proof.
  destruct coordinates_parse_back as [_ H].
  apply (H [line1; line2] 50 false "Q1#1|E_coli" [row1; row2] [row1; row2] row2).
  - vm_compute. left.
  - vm_compute. left.
  - right. left.
Defined.

(** ** The shape of the output lines *)

Lemma count_char_app c a b :
  count_char c (a +:+ b) = (count_char c a + count_char c b)%nat.
Proof. induction a as [|x a IH]; simpl; [done|]. rewrite IH. lia. Qed.

Lemma no_space_count c s :
  Py.isspace c = true -> no_space s = true -> count_char c s = 0%nat.
Proof.
  intros Hc. induction s as [|x s IH]; simpl; [done|].
  intros [Hx Hs]%andb_true_iff. rewrite IH by done.
  destruct (Ascii.eqb_spec x c) as [->|]; [|done].
  by rewrite Hc in Hx.
Qed.

Lemma no_space_join sep l :
  no_space sep = true -> Forall (fun t => no_space t = true) l ->
  no_space (Py.join sep l) = true.
Proof.
  intros Hsep. induction 1 as [|t l Ht Hl IH]; [done|].
  destruct l as [|t' l]; [done|].
  change (Py.join sep (t :: t' :: l)) with (t +:+ sep +:+ Py.join sep (t' :: l)).
  by rewrite !no_space_app, Ht, Hsep, IH.
Qed.

Lemma count_join c sep l :
  Forall (fun t => count_char c t = 0%nat) l ->
  count_char c (Py.join sep l) = ((length l - 1) * count_char c sep)%nat.
Proof.
  induction 1 as [|t l Ht Hl IH]; [done|].
  destruct l as [|t' l]; [simpl; lia|].
  change (Py.join sep (t :: t' :: l)) with (t +:+ sep +:+ Py.join sep (t' :: l)).
  rewrite !count_char_app, Ht, IH. simpl. lia.
Qed.

Lemma pretty_char_no_space d : Py.isspace (pretty_N_char d) = false.
Proof. unfold pretty_N_char. by repeat case_match. Qed.

Lemma no_space_pretty_go x s : no_space (pretty_N_go x s) = no_space s.
Proof.
  revert s. induction (N.lt_wf_0 x) as [x _ IH]; intros s.
  destruct (decide (x = 0)%N) as [->|Hx]; [by rewrite pretty_N_go_0|].
  rewrite pretty_N_go_step by (by apply N.neq_0_lt_0).
  rewrite IH by (apply N.div_lt; [by apply N.neq_0_lt_0|done]).
  simpl. by rewrite pretty_char_no_space.
Qed.

Lemma no_space_str z : no_space (Py.str z) = true.
Proof.
  destruct z as [|p|p]; [done| |];
    unfold Py.str, pretty, pretty_Z, pretty, pretty_positive, pretty, pretty_N;
    destruct (decide (N.pos p = 0)%N); try done.
  - by rewrite no_space_pretty_go.
  - by rewrite no_space_app, no_space_pretty_go.
Qed.

Lemma no_space_split1 sep s :
  no_space s = true ->
  no_space (Py.split1 sep s).1 = true
  /\ no_space (default "" (Py.split1 sep s).2) = true.
Proof.
  induction s as [|c s IH]; simpl; [done|].
  intros [Hc Hs]%andb_true_iff. destruct (IH Hs) as [IH1 IH2].
  destruct (Ascii.eqb c sep); simpl; [done|].
  destruct (Py.split1 sep s) as [h t]. simpl in *. by rewrite Hc, IH1.
Qed.

Lemma field_no_space line i : no_space (field (fields line) i) = true.
Proof.
  unfold field. pose proof (split_go_tokens (Py.strip line) "" eq_refl) as H.
  fold (Py.split (Py.strip line)) in H. fold (fields line) in H.
  revert i. induction H as [|t l [_ Ht] _ IH]; intros [|i]; simpl; auto.
Qed.

Lemma parse_line_no_space line r :
  parse_line line = Ok (Some r) -> row_no_space r.
Proof.
  rewrite parse_line_unfold. destruct (_ <? 12)%nat; [done|].
  destruct (Py.int (field (fields line) 7)), (Py.int (field (fields line) 8));
    try done.
  intros [= <-]. unfold row_no_space. simpl.
  destruct (no_space_split1 "|" (field (fields line) 0)) as [H1 H2];
    [apply field_no_space|].
  split_and!; auto using field_no_space.
Qed.

Lemma tsv_record (fs : list string) :
  length fs = 11%nat -> Forall (fun t => no_space t = true) fs ->
  tsv_line (Py.join tab fs +:+ nl).
Proof.
  intros Hlen Hfs. exists (Py.join tab fs). split; [done|]. split.
  - rewrite count_join, Hlen; [done|].
    eapply Forall_impl; [exact Hfs|]. intros t Ht. by apply no_space_count.
  - rewrite count_join, Hlen; [done|].
    eapply Forall_impl; [exact Hfs|]. intros t Ht. by apply no_space_count.
Qed.

Lemma write_operon_tsv q qid sp asm op :
  no_space q = true -> no_space qid = true -> no_space sp = true ->
  no_space asm = true -> Forall row_no_space op ->
  Forall tsv_line (write_operon q qid sp asm [] op).
Proof.
  intros Hq Hqid Hsp Hasm Hop. unfold write_operon.
  destruct (_ =? 0)%nat; [constructor|].
  destruct op as [|m0 ms]; [constructor|].
  constructor; [|constructor]. apply tsv_record; [done|].
  pose proof Hop as Hop'. apply Forall_cons in Hop' as [Hm0 _].
  repeat (constructor; [first [done|apply no_space_str|apply Hm0]|]).
  constructor.
  { apply no_space_join; [done|]. apply Forall_fmap.
    eapply Forall_impl; [exact Hop|]. by intros r (_ & _ & _ & ? & _). }
  constructor; [|by repeat constructor].
  apply no_space_join; [done|]. apply Forall_fmap.
  eapply Forall_impl; [exact Hop|]. intros r (_ & _ & _ & Hp & _).
  unfold coords, compose. by rewrite !no_space_app, Hp, !no_space_str.
Qed.

Lemma fold_write_operon_concat q qid sp asm ops :
  fold_left (write_operon q qid sp asm) ops []
  = concat (write_operon q qid sp asm [] <$> ops).
Proof.
  induction ops as [|op ops IH]; [done|]. simpl.
  by rewrite fold_write_operon_out, IH.
Qed.

Lemma process_block_tsv max_gap rss q r0 rows :
  Forall (fun r => q_full r = q /\ row_no_space r) (r0 :: rows) ->
  Forall tsv_line (process_block max_gap rss [] (q, r0 :: rows)).
Proof.
  intros Hrows. unfold process_block. rewrite fold_write_operon_concat.
  pose proof Hrows as Hrows'.
  apply Forall_cons in Hrows' as [[Hq0 (Hq & Hid & Hsp & _ & _ & Hasm)] _].
  apply Forall_forall. intros l (lines & (op & -> & Hop)%list_elem_of_In%list_elem_of_fmap
                                & Hl%list_elem_of_In)%list_elem_of_In%in_concat.
  unfold query_operons in Hop. apply list_elem_of_filter in Hop as [_ Hop].
  revert l Hl. apply Forall_forall. apply write_operon_tsv; try done.
  - by rewrite <- Hq0.
  - apply Forall_forall. intros m Hm. rewrite Forall_forall in Hrows.
    apply Hrows. by eapply cluster_member.
Qed.

Lemma main_per_block_lines lines max_gap rss :
  (main lines max_gap rss).1
  = header :: concat (process_block max_gap rss [] <$> (blocks_by_query lines).1)
  /\ (forall blk, blk ∈ (blocks_by_query lines).1 ->
        exists q r0 rows,
          blk = (q, r0 :: rows)
          /\ Forall (fun r => q_full r = q /\ row_no_space r) (r0 :: rows)).
Proof.
  split.
  { unfold main. destruct (blocks_by_query lines) as [blocks e]. simpl.
    by rewrite fold_process_block. }
  rewrite blocks_by_query_read. simpl. intros [q rows] Hb%handed_out_elem.
  pose proof (runs_uniform (read lines).1) as Hu.
  rewrite Forall_forall in Hu. destruct (Hu _ Hb) as [Hne Hk]. simpl in *.
  destruct rows as [|r0 rows]; [done|]. exists q, r0, rows. split; [done|].
  apply Forall_forall. intros r Hr. rewrite Forall_forall in Hk.
  split; [by apply Hk|].
  destruct (read_rows_parsed lines r) as (line & _ & Hline).
  { by eapply runs_elem. }
  by eapply parse_line_no_space.
Qed.

(** X20. Every line that [main] writes, the header included, is a line of
    a table with eleven columns: it has ten tabs and ends with its only
    newline.  This holds for every input, also when the run ends with an
    error. *)
Theorem main_writes_table
    (lines : list string) (max_gap : Z) (require_same_strand : bool) :
  Forall tsv_line (main lines max_gap require_same_strand).1.
Proof.
  destruct (main_per_block_lines lines max_gap require_same_strand) as [-> Hblocks].
  constructor.
  { eexists. split; [reflexivity|]. by vm_compute. }
  apply Forall_forall. intros l (ls & (blk & -> & Hblk)%list_elem_of_In%list_elem_of_fmap
                                 & Hl%list_elem_of_In)%list_elem_of_In%in_concat.
  destruct (Hblocks blk Hblk) as (q & r0 & rows & -> & Hrows).
  revert l Hl. apply Forall_forall. by apply process_block_tsv.
Qed.
